(** * Genre resolution engine of sm-metadata-editor-thing

    Shallow embedding of the genre search package
    ([src/genre_search/genre_pick.py], [genre_search.py],
    [genre_search_thread.py], [models.py], the tree builder of
    [genre_normalize_window.py] and [src/models/audio_metadata.py]). *)

From Stdlib Require Import String Ascii List Bool Arith Lia QArith.
From Stdlib Require Import Permutation.
From Stdlib Require Import Lqa.
Import ListNotations.
Open Scope string_scope.
Open Scope nat_scope.
Open Scope list_scope.
Set Warnings "-register-all".

(** ** Python runtime fragments *)

(** The exceptions the modelled code can raise. *)
Inductive exn : Type :=
| TypeError
| AttributeError
| KeyError
| IndexError
| ValueError.

(** A computation that returns a value or raises. *)
Inductive result (A : Type) : Type :=
| Ok : A -> result A
| Err : exn -> result A.
Arguments Ok {A} _.
Arguments Err {A} _.

Definition bind {A B} (m : result A) (k : A -> result B) : result B :=
  match m with
  | Ok a => k a
  | Err e => Err e
  end.

Notation "x <- m ;; k" := (bind m (fun x => k))
  (at level 61, m at next level, right associativity).

(** [x in xs] for a list of strings. *)
Definition py_in (x : string) (xs : list string) : bool :=
  existsb (String.eqb x) xs.

(** [xs.remove(x)]: drops the first occurrence, raises [ValueError]
    when there is none. *)
Fixpoint py_remove (x : string) (xs : list string) : result (list string) :=
  match xs with
  | [] => Err ValueError
  | y :: ys =>
      if String.eqb x y then Ok ys
      else r <- py_remove x ys ;; Ok (y :: r)
  end.

(** [xs[-i]] for [i >= 1]. *)
Definition py_neg_index {A} (xs : list A) (i : nat) : result A :=
  if Nat.ltb (length xs) i then Err IndexError
  else match nth_error xs (length xs - i) with
       | Some a => Ok a
       | None => Err IndexError
       end.

(** [xs[0]]. *)
Definition py_head {A} (xs : list A) : result A :=
  match xs with
  | a :: _ => Ok a
  | [] => Err IndexError
  end.

(** Truthiness of an optional string returned by a helper
    ([None] and [""] are falsy). *)
Definition truthy (o : option string) : bool :=
  match o with
  | Some s => negb (String.eqb s "")
  | None => false
  end.

(** [max(xs, key=len)]: the first element of maximal length; raises
    [ValueError] on an empty sequence. *)
Fixpoint max_len_from {A} (best : list A) (xs : list (list A)) : list A :=
  match xs with
  | [] => best
  | x :: r => if Nat.ltb (length best) (length x)
              then max_len_from x r else max_len_from best r
  end.

Definition py_max_len {A} (xs : list (list A)) : result (list A) :=
  match xs with
  | [] => Err ValueError
  | x :: r => Ok (max_len_from x r)
  end.

(** ** genre_pick.py *)
Module GenrePick.

(** [get_pop]. *)
Definition get_pop (g : list string) : option string :=
  if py_in "Pop" g then Some "Pop" else None.

(** The enumerated list inside [get_regional_pop]. *)
Definition regional_pop_genres : list string :=
  [ "Arab Pop"; "Austropop"; "Balkan Pop"; "French Pop"; "Latin Pop";
    "Nederpop"; "Russian Pop"; "Iranian Pop"; "Mexican Pop";
    "Turkish Pop"; "Europop"; "Vispop"; "J-Pop"; "K-Pop"; "C-Pop" ].

Fixpoint first_in (regs : list string) (g : list string) : option string :=
  match regs with
  | [] => None
  | r :: rs => if py_in r g then Some r else first_in rs g
  end.

(** [get_regional_pop]. *)
Definition get_regional_pop (g : list string) : option string :=
  first_in regional_pop_genres g.

(** [get_dance_genre]; the [.copy()] before [.remove] is implicit in
    the value semantics of the list. *)
Definition get_dance_genre (g : list string) : result (option string) :=
  if py_in "Dance" g then
    g' <- (if py_in "Uk Garage" g then py_remove "Uk Garage" g else Ok g) ;;
    if Nat.ltb 1 (length g') then
      x <- py_neg_index g' 2 ;; Ok (Some x)
    else
      x <- py_neg_index g' 1 ;; Ok (Some x)
  else Ok None.

(** First loop of [pick_genre]: per path, regional pop then plain pop. *)
Fixpoint pop_loop (gs : list (list string)) : option string :=
  match gs with
  | [] => None
  | g :: r =>
      let rp := get_regional_pop g in
      if truthy rp then rp
      else let jp := get_pop g in
           if truthy jp then jp else pop_loop r
  end.

(** Second loop of [pick_genre]. *)
Fixpoint dance_loop (gs : list (list string)) : result (option string) :=
  match gs with
  | [] => Ok None
  | g :: r =>
      d <- get_dance_genre g ;;
      if truthy d then Ok d else dance_loop r
  end.

(** [pick_genre]. *)
Definition pick_genre (gs : list (list string)) : result string :=
  match pop_loop gs with
  | Some p => Ok p
  | None =>
      d <- dance_loop gs ;;
      match d with
      | Some s => Ok s
      | None =>
          longest <- py_max_len gs ;;
          py_head longest
      end
  end.

End GenrePick.

(** ** Python values, dictionaries and dataclasses *)

(** The Python values that flow through the option objects. *)
Inductive pyval : Type :=
| PNone
| PStr (s : string)
| PNum (q : Q)
| PList (xs : list string).

(** A [dict] keyed by strings, in insertion order. *)
Fixpoint dict_get {A} (d : list (string * A)) (k : string) : option A :=
  match d with
  | [] => None
  | (k', v) :: r => if String.eqb k' k then Some v else dict_get r k
  end.

(** [d[k] = v]: replaces the value in place, or appends a new key. *)
Fixpoint dict_set {A} (d : list (string * A)) (k : string) (v : A)
  : list (string * A) :=
  match d with
  | [] => [(k, v)]
  | (k', v') :: r =>
      if String.eqb k' k then (k', v) :: r else (k', v') :: dict_set r k v
  end.

(** ** models.py *)

(** [GenreTag] of the fuzzytrackmatch dependency: a name and a score. *)
Record GenreTag : Type := mkGenreTag { name : string; score : Q }.

Definition GenrePath : Type := list GenreTag.

(** [SearchOptions], with the four fields it declares. *)
Record SearchOptions : Type := mkSearchOptions {
  lastfm_api_key : option string;
  discogs_api_key : option string;
  api_search_order : option (list string);
  cache_file : option string }.

Definition SearchOptions_fields : list string :=
  ["lastfm_api_key"; "discogs_api_key"; "api_search_order"; "cache_file"].

Definition pyval_of_opt_str (o : option string) : pyval :=
  match o with Some s => PStr s | None => PNone end.

(** Attribute lookup on a [SearchOptions] instance. *)
Definition SearchOptions_getattr (o : SearchOptions) (n : string)
  : result pyval :=
  if String.eqb n "lastfm_api_key" then Ok (pyval_of_opt_str (lastfm_api_key o))
  else if String.eqb n "discogs_api_key" then Ok (pyval_of_opt_str (discogs_api_key o))
  else if String.eqb n "api_search_order" then
    Ok (match api_search_order o with Some l => PList l | None => PNone end)
  else if String.eqb n "cache_file" then Ok (pyval_of_opt_str (cache_file o))
  else Err AttributeError.

Definition as_opt_str (v : pyval) : option string :=
  match v with PStr s => Some s | _ => None end.

Definition as_opt_list (v : pyval) : option (list string) :=
  match v with PList l => Some l | _ => None end.

(** The generated [__init__] of the dataclass, called with keyword
    arguments: an unexpected keyword or a missing field is a
    [TypeError]. *)
Definition SearchOptions_init (kwargs : list (string * pyval))
  : result SearchOptions :=
  if existsb (fun kv => negb (py_in (fst kv) SearchOptions_fields)) kwargs
  then Err TypeError
  else match dict_get kwargs "lastfm_api_key", dict_get kwargs "discogs_api_key",
             dict_get kwargs "api_search_order", dict_get kwargs "cache_file" with
       | Some l, Some d, Some o, Some c =>
           Ok (mkSearchOptions (as_opt_str l) (as_opt_str d) (as_opt_list o)
                 (as_opt_str c))
       | _, _, _, _ => Err TypeError
       end.

(** ** genre_search.py *)
Module Search.

Definition ProviderMap : Type := list (string * list GenrePath).
Definition Cache : Type := list (string * ProviderMap).

(** The [track_and_genres] object a searcher returns. *)
Record TrackAndGenres : Type := mkTrackAndGenres {
  match_score : Q;
  canonicalized_genres : list GenrePath;
  genres : list GenreTag }.

(** What one call of [searcher.fetch_track_genres] does. *)
Inductive fetch_outcome : Type :=
| FetchRaises
| FetchNone
| FetchSome (tg : TrackAndGenres).

(** The providers, as seen by the engine: the outcome of the [n]-th
    network call, for a provider name and a query.  Indexing by the call
    number lets successive calls answer differently. *)
Definition Fetcher : Type :=
  nat -> string -> string -> string -> option string -> fetch_outcome.

(** The state of a [GenreSearch] instance. [thr_attr] is what
    [self.options.similarity_threshold] evaluates to. *)
Record GenreSearch : Type := mkGenreSearch {
  thr_attr : result pyval;
  cache : Cache;
  search_order : list string;
  searchers : list string }.

(** [_setup_searchers]: the search order and the names of the
    searchers that get built. *)
Definition setup_searchers (o : SearchOptions) : list string * list string :=
  let order := match api_search_order o with
               | Some ((_ :: _) as l) => l
               | _ => ["lastfm"; "discogs"]
               end in
  let has_key k := match k with Some s => negb (String.eqb s "") | None => false end in
  (order,
   map fst (fold_left (fun acc search =>
       if String.eqb search "lastfm" then
         (if has_key (lastfm_api_key o) then dict_set acc "lastfm" tt else acc)
       else if String.eqb search "discogs" then
         (if has_key (discogs_api_key o) then dict_set acc "discogs" tt else acc)
       else if String.eqb search "animethemes" then dict_set acc "animethemes" tt
       else acc) order [])).

(** [__init__], with [loaded] the cache that [_load_cache] produced. *)
Definition init (o : SearchOptions) (loaded : Cache) : GenreSearch :=
  let '(order, srch) := setup_searchers o in
  mkGenreSearch (SearchOptions_getattr o "similarity_threshold") loaded order srch.

Definition cache_key (artist title : string) (subtitle : option string) : string :=
  artist ++ "|" ++ title ++ "|" ++ match subtitle with Some s => s | None => "" end.

(** [_get_from_cache]. *)
Definition get_from_cache (c : Cache) (key src : string) : option (list GenrePath) :=
  match dict_get c key with
  | Some m => dict_get m src
  | None => None
  end.

(** [_add_to_cache]. *)
Definition add_to_cache (c : Cache) (key : string) (gs : list GenrePath) (src : string)
  : Cache :=
  let m := match dict_get c key with Some m => m | None => [] end in
  dict_set c key (dict_set m src gs).

(** The local state of one [get_genres] call, with three logs of the
    run: the providers fetched, the providers consulted (not skipped)
    and what each consulted provider added to [genres]. *)
Record run_state : Type := mkRun {
  rs_genres : list GenrePath;
  rs_cache : Cache;
  rs_fetched : list string;
  rs_consulted : list string;
  rs_contribs : list (string * list GenrePath) }.

Definition below_threshold (thr : result pyval) (q : Q) : result bool :=
  match thr with
  | Ok (PNum t) => Ok (negb (Qle_bool t q))
  | Ok _ => Err TypeError
  | Err e => Err e
  end.

Section GetGenres.
Variable E : GenreSearch.
Variable fetch : Fetcher.
Variables (artist title : string) (subtitle : option string).

Definition key : string := cache_key artist title subtitle.

(** One iteration of the loop over [self.search_order]. Exceptions
    raised inside the [try] are swallowed; the lookup of
    [self.searchers[search_option]] sits before the [try]. *)
Definition step (p : string) (st : run_state) : result run_state :=
  let '(mkRun g c f cs ct) := st in
  if String.eqb p "animethemes" && Nat.ltb 0 (length g) then Ok st
  else
    let cs' := cs ++ [p] in
    match get_from_cache c key p with
    | Some cg => Ok (mkRun (g ++ cg) c f cs' (ct ++ [(p, cg)]))
    | None =>
        if negb (py_in p (searchers E)) then Err KeyError
        else
          let f' := f ++ [p] in
          match fetch (length f) p artist title subtitle with
          | FetchRaises => Ok (mkRun g c f' cs' ct)
          | FetchNone => Ok (mkRun g (add_to_cache c key [] p) f' cs' ct)
          | FetchSome tg =>
              match below_threshold (thr_attr E) (match_score tg) with
              | Err _ => Ok (mkRun g c f' cs' ct)
              | Ok true => Ok (mkRun g c f' cs' ct)
              | Ok false =>
                  let rg :=
                    if String.eqb p "animethemes" then
                      match genres tg with
                      | g0 :: _ => [[g0]]
                      | [] => canonicalized_genres tg
                      end
                    else canonicalized_genres tg in
                  Ok (mkRun (g ++ rg) (add_to_cache c key rg p) f' cs' (ct ++ [(p, rg)]))
              end
          end
  end.

Fixpoint loop (order : list string) (st : run_state) : result run_state :=
  match order with
  | [] => Ok st
  | p :: rest => st' <- step p st ;; loop rest st'
  end.

(** [get_genres]: the run, from the instance's cache; [rs_genres] of
    the final state is the returned list and [rs_cache] the new
    [self.cache] (also written to [cache_file] by [_save_cache]). *)
Definition get_genres : result run_state :=
  loop (search_order E) (mkRun [] (cache E) [] [] []).

End GetGenres.

(** The instance after a call: [self.cache] is the run's cache. *)
Definition with_cache (E : GenreSearch) (c : Cache) : GenreSearch :=
  mkGenreSearch (thr_attr E) c (search_order E) (searchers E).

End Search.

(** ** genre_search_thread.py *)
Module Thread.

(** The reordering in [GenreSearchThread.__init__]: [remove] drops the
    first ["animethemes"], [append] puts one back at the end. *)
Definition move_animethemes_last (srcs : list string) : result (list string) :=
  if py_in "animethemes" srcs then
    r <- py_remove "animethemes" srcs ;; Ok (r ++ ["animethemes"])
  else Ok srcs.

(** [_setup_genre_search], with the values [self.config.get] returned,
    the cache file path and the cache [_load_cache] would read. *)
Definition setup_genre_search (lastfm discogs thresh : pyval)
    (sources : list string) (cache_path : string) (loaded : Search.Cache)
  : result Search.GenreSearch :=
  o <- SearchOptions_init
         [("lastfm_api_key", lastfm); ("discogs_api_key", discogs);
          ("api_search_order", PList sources); ("cache_file", PStr cache_path);
          ("similarity_threshold", thresh)] ;;
  Ok (Search.init o loaded).

(** [__init__]: the reordering, then [_setup_genre_search]. *)
Definition thread_init (api_search_sources : list string)
    (lastfm discogs thresh : pyval) (cache_path : string) (loaded : Search.Cache)
  : result Search.GenreSearch :=
  srcs <- move_animethemes_last api_search_sources ;;
  setup_genre_search lastfm discogs thresh srcs cache_path loaded.

End Thread.

(** ** The cache file: [_cache_as_dicts], [json.dump], [json.load] and
    [_load_cache] *)
Module CacheFile.

(** The semantic content of a JSON document. *)
Inductive json : Type :=
| JNull
| JStr (s : string)
| JNum (q : Q)
| JArr (xs : list json)
| JObj (kvs : list (string * json)).

(** Filling a fresh dict by assignments, in order. *)
Definition dict_build {A} (l : list (string * A)) : list (string * A) :=
  fold_left (fun acc kv => dict_set acc (fst kv) (snd kv)) l [].

(** [g.__dict__] for a [GenreTag]. *)
Definition tag_as_dict (g : GenreTag) : json :=
  JObj [("name", JStr (name g)); ("score", JNum (score g))].

(** [_cache_as_dicts]. *)
Definition cache_as_dicts (c : Search.Cache) : list (string * json) :=
  dict_build
    (map (fun kv =>
            (fst kv,
             JObj (dict_build
                     (map (fun sg =>
                             (fst sg, JArr (map (fun gs => JArr (map tag_as_dict gs))
                                               (snd sg))))
                          (snd kv)))))
         c).

(** [_save_cache]: the document [json.dump] writes. *)
Definition save (c : Search.Cache) : json := JObj (cache_as_dicts c).

(** Modelled from the spec: [GenreTag.from_dict] of the fuzzytrackmatch
    dependency (not in this repository), which rebuilds a tag from its
    [{name, score}] object (spec section 3 and section 6). *)
Definition GenreTag_from_dict (j : json) : result GenreTag :=
  match j with
  | JObj kvs =>
      match dict_get kvs "name", dict_get kvs "score" with
      | Some (JStr n), Some (JNum s) => Ok (mkGenreTag n s)
      | _, _ => Err KeyError
      end
  | _ => Err TypeError
  end.

Fixpoint mapM {A B} (f : A -> result B) (l : list A) : result (list B) :=
  match l with
  | [] => Ok []
  | x :: r => y <- f x ;; ys <- mapM f r ;; Ok (y :: ys)
  end.

(** The innermost loops of [_load_cache]: one provider's genre groups.
    Shapes [save] never writes raise, and [_load_cache] then keeps its
    empty cache. *)
Definition load_groups (j : json) : result (list GenrePath) :=
  match j with
  | JArr groups =>
      mapM (fun g => match g with
                     | JArr tags => mapM GenreTag_from_dict tags
                     | _ => Err TypeError
                     end) groups
  | _ => Err TypeError
  end.

Definition load_obj (j : json) : result Search.ProviderMap :=
  match j with
  | JObj srcs =>
      l <- mapM (fun sg => gs <- load_groups (snd sg) ;; Ok (fst sg, gs)) srcs ;;
      Ok (dict_build l)
  | _ => Err TypeError
  end.

(** [_load_cache] on the document [json.load] returned. *)
Definition load (j : json) : result Search.Cache :=
  match j with
  | JObj items =>
      l <- mapM (fun ko => o <- load_obj (snd ko) ;; Ok (fst ko, o)) items ;;
      Ok (dict_build l)
  | _ => Err TypeError
  end.

End CacheFile.

(** ** [GenreNormalizationDialog.build_genre_tree] *)
Module Tree.

(** A nested dict of genre names. *)
Inductive tree : Type := Node (children : list (string * tree)).

(** The Python list objects, by address. *)
Definition Store : Type := nat -> list GenreTag.

Definition store_upd (h : Store) (l : nat) (v : list GenreTag) : Store :=
  fun l' => if Nat.eqb l l' then v else h l'.

(** [if name not in level: level[name] = {}; level = level[name]],
    then the rest of the walk [f] in that sub-level. *)
Fixpoint descend (n : string) (f : list (string * tree) -> list (string * tree))
    (lvl : list (string * tree)) : list (string * tree) :=
  match lvl with
  | [] => [(n, Node (f []))]
  | (k, Node ch) :: r =>
      if String.eqb k n then (k, Node (f ch)) :: r
      else (k, Node ch) :: descend n f r
  end.

Fixpoint insert_path (path : list GenreTag) (lvl : list (string * tree))
  : list (string * tree) :=
  match path with
  | [] => lvl
  | g :: gs => descend (name g) (insert_path gs) lvl
  end.

(** [build_genre_tree]: [path.reverse()] reverses the list object in
    place, then the walk inserts it. *)
Fixpoint build_from (h : Store) (paths : list nat) (t : list (string * tree))
  : list (string * tree) * Store :=
  match paths with
  | [] => (t, h)
  | l :: r =>
      let h' := store_upd h l (rev (h l)) in
      build_from h' r (insert_path (h' l) t)
  end.

Definition build_genre_tree (h : Store) (genre_paths : list nat)
  : list (string * tree) * Store :=
  build_from h genre_paths [].

(** [_get_initial_genres_selection]: the scan state is
    [(best_genre, best_score, best_depth)]; each group is scanned on a
    reversed copy, so the argument lists are left as they are. *)
Definition sel_state : Type := (option GenreTag * Q * nat)%type.

Fixpoint sel_group (grp : list GenreTag) (depth : nat) (st : sel_state) : sel_state :=
  match grp with
  | [] => st
  | g :: r =>
      if String.eqb (name g) "Dance" then sel_group r depth st
      else
        let depth' := S depth in
        let '(best, bs, bd) := st in
        if negb (Qle_bool (score g) bs) || (Qeq_bool (score g) bs && Nat.leb bd depth')
        then sel_group r depth' (Some g, score g, depth')
        else sel_group r depth' st
  end.

Definition get_initial_genres_selection (genres : list GenrePath) : option GenreTag :=
  fst (fst (fold_left (fun st group => sel_group (rev group) 0 st) genres
                      (None, 0%Q, 0))).

(** The glyph between indent and name, as the bytes of the source. *)
Definition branch_glyph : string :=
  string_of_list_ascii (map ascii_of_nat [195; 162; 226; 128; 157; 197; 147]).

Fixpoint repeat_str (s : string) (n : nat) : string :=
  match n with
  | 0 => ""
  | S k => s ++ repeat_str s k
  end.

Definition display_text (genre : string) (depth : nat) : string :=
  if Nat.eqb depth 0 then genre
  else repeat_str "  " (depth - 1) ++ " " ++ branch_glyph ++ " " ++ genre.

(** [if subtree:] on a dict. *)
Definition tree_truthy (t : tree) : bool :=
  match t with Node [] => false | Node _ => true end.

(** [flatten_tree_for_display]: [(display_text, actual_value, depth)]. *)
Fixpoint flatten_tree_for_display (t : tree) (depth : nat)
  : list (string * string * nat) :=
  match t with
  | Node ch =>
      (fix go (l : list (string * tree)) : list (string * string * nat) :=
         match l with
         | [] => []
         | (genre, subtree) :: r =>
             ((display_text genre depth, genre, depth)
                :: (if tree_truthy subtree
                    then flatten_tree_for_display subtree (S depth) else []))
             ++ go r
         end) ch
  end.

(** The state of the row's [QComboBox] that the dialog fills:
    its items with their [userData], the index last passed to
    [setCurrentIndex] ([None]: never called) and whether it is enabled. *)
Record Combo : Type := mkCombo {
  combo_items : list (string * option string);
  combo_current : option nat;
  combo_enabled : bool }.

(** The loop over [items] in [update_genre_options_for_row] that moves
    the current index. *)
Fixpoint select_index (items : list (string * string * nat)) (initial : option GenreTag)
    (idx : nat) (cur : option nat) : option nat :=
  match items with
  | [] => cur
  | (_, actual_value, _) :: r =>
      let cur' := match initial with
                  | Some g => if String.eqb (name g) actual_value then Some idx else cur
                  | None => cur
                  end in
      select_index r initial (S idx) cur'
  end.

(** [update_genre_options_for_row] on a fresh combo box, with the path
    objects [possible_genres] in the store and [simfiles[row].genre]. *)
Definition update_genre_options_for_row (h : Store) (possible_genres : list nat)
    (initial_selection : option GenreTag) (current_genre : string) : Combo * Store :=
  match possible_genres with
  | [] => (mkCombo [("(no results found)", None)] None false, h)
  | _ =>
      let '(t, h') := build_genre_tree h possible_genres in
      let items := flatten_tree_for_display (Node t) 0 in
      let keep := if String.eqb current_genre "" then []
                  else [(String.append "(keep: " (String.append current_genre ")"), None)] in
      (mkCombo (map (fun it => (fst (fst it), Some (snd (fst it)))) items ++ keep)
               (select_index items initial_selection 0 None) true, h')
  end.

(** [on_genre_found]: the initial selection is computed on the lists
    before [build_genre_tree] reverses them. *)
Definition on_genre_found (h : Store) (genres : list nat) (current_genre : string)
  : Combo * Store :=
  let initial_selection := get_initial_genres_selection (map h genres) in
  update_genre_options_for_row h genres initial_selection current_genre.

End Tree.

(** ** src/models/audio_metadata.py and the audio branch of
    [GenreSearchThread._do_search_for_simfile] *)
Module Audio.

Definition py_contains_char (c : Ascii.ascii) (s : string) : bool :=
  existsb (Ascii.eqb c) (list_ascii_of_string s).

(** [s.split(sep)] for a one-character separator. *)
Fixpoint split_on (c : Ascii.ascii) (s : string) : list string :=
  match s with
  | EmptyString => [""]
  | String x r =>
      if Ascii.eqb x c then "" :: split_on c r
      else match split_on c r with
           | w :: ws => String x w :: ws
           | [] => [String x ""]
           end
  end.

Definition is_space (x : Ascii.ascii) : bool :=
  existsb (Ascii.eqb x) [" "%char; "009"%char; "010"%char; "011"%char;
                         "012"%char; "013"%char].

Fixpoint lstrip_chars (l : list Ascii.ascii) : list Ascii.ascii :=
  match l with
  | x :: r => if is_space x then lstrip_chars r else l
  | [] => []
  end.

(** [s.strip()] (ASCII whitespace). *)
Definition py_strip (s : string) : string :=
  string_of_list_ascii
    (rev (lstrip_chars (rev (lstrip_chars (list_ascii_of_string s))))).

(** The mutagen tags read from the file ([File(audio_path)]). *)
Record AudioTags : Type := mkAudioTags {
  TITLE : option (list string);
  ARTIST : option (list string);
  ALBUM : option (list string);
  GENRE : option (list string) }.

(** [AudioMetadata]: its four declared fields. *)
Record AudioMetadata : Type := mkAudioMetadata {
  am_title : option string;
  am_artist : option string;
  am_album : option string;
  am_genres : option (list string) }.

(** Attribute lookup on an [AudioMetadata] instance. *)
Definition AudioMetadata_getattr (m : AudioMetadata) (n : string) : result pyval :=
  if String.eqb n "title" then Ok (pyval_of_opt_str (am_title m))
  else if String.eqb n "artist" then Ok (pyval_of_opt_str (am_artist m))
  else if String.eqb n "album" then Ok (pyval_of_opt_str (am_album m))
  else if String.eqb n "genres" then
    Ok (match am_genres m with Some l => PList l | None => PNone end)
  else Err AttributeError.

(** [audio.get(K, [None])[0] if K in audio else None]. *)
Definition first_tag (o : option (list string)) : result (option string) :=
  match o with
  | None => Ok None
  | Some [] => Err IndexError
  | Some (x :: _) => Ok (Some x)
  end.

Definition str_truthy (o : option string) : bool := truthy o.

(** The splitting loop of [from_audio_file]: the [";"] test is made on
    the whole tag list [genre], not on the item [g]. *)
Definition split_genres (genre : list string) : list string :=
  fold_left (fun acc g =>
      if py_contains_char "/"%char g then acc ++ split_on "/"%char g
      else if py_in ";" genre then acc ++ split_on ";"%char g
      else acc ++ [g]) genre [].

(** [AudioMetadata.from_audio_file], given what [File] read
    ([None] for a missing file or an unreadable one). *)
Definition from_audio_file (audio : option AudioTags) : result (option AudioMetadata) :=
  match audio with
  | None => Ok None
  | Some tags =>
      title <- first_tag (TITLE tags) ;;
      artist <- first_tag (ARTIST tags) ;;
      album <- first_tag (ALBUM tags) ;;
      let genre := GENRE tags in
      let genre_truthy := match genre with Some (_ :: _) => true | _ => false end in
      if negb (str_truthy title) && negb (str_truthy artist)
         && negb (str_truthy album) && negb genre_truthy then Ok None
      else
        let gs := match genre with Some l => split_genres l | None => [] end in
        let gs := map py_strip (filter (fun g => negb (String.eqb g "")) gs) in
        Ok (Some (mkAudioMetadata title artist album (Some gs)))
  end.

Definition pyval_truthy (v : pyval) : bool :=
  match v with
  | PNone => false
  | PStr s => negb (String.eqb s "")
  | PNum q => negb (Qeq_bool q 0)
  | PList l => match l with [] => false | _ => true end
  end.

Section DoSearch.
(** [self._search_genre]: [None] for an empty list. *)
Variable search_genre : string -> string -> string -> result (option (list GenrePath)).

(** The audio branch of [_do_search_for_simfile], from the [result]
    built by the searches before it. [normalize_genre] is looked up on
    the [GenreSearch] instance, whose methods are [get_genres],
    [_setup_searchers], [_get_from_cache], [_add_to_cache], [_load_cache],
    [_cache_as_dicts] and [_save_cache]. *)
Definition audio_branch (check_audio_files : bool) (music : option string)
    (audio : option AudioTags) (result0 : list GenrePath)
  : result (list GenrePath) :=
  if check_audio_files && str_truthy music then
    md <- from_audio_file audio ;;
    match md with
    | None => Ok result0
    | Some m =>
        r1 <- (if str_truthy (am_artist m) && str_truthy (am_title m) then
                 ar <- search_genre (match am_artist m with Some a => a | None => "" end)
                                    (match am_title m with Some t => t | None => "" end) "" ;;
                 Ok (match ar with Some x => result0 ++ x | None => result0 end)
               else Ok result0) ;;
        g <- AudioMetadata_getattr m "genre" ;;
        (* [GenreSearch] defines no [normalize_genre]: looking it up raises *)
        if pyval_truthy g then Err AttributeError else Ok r1
    end
  else Ok result0.

End DoSearch.

End Audio.

(** ** The batch runner: [GenreSearchThread._search_genre],
    [_do_search_for_simfile] and [run] *)
Module Runner.

(** The fields of [SimfileMetadata] the runner reads. *)
Record SimfileMetadata : Type := mkSimfileMetadata {
  sf_title : string;
  sf_subtitle : string;
  sf_artist : string;
  sf_titletranslit : string;
  sf_subtitletranslit : string;
  sf_artisttranslit : string;
  sf_music : option string }.

(** [a or b] on strings. *)
Definition str_or (a b : string) : string := if String.eqb a "" then b else a.

(** [_search_genre] on a [GenreSearch] instance: [get_genres] with the
    three strings, [None] for an empty list; the instance afterwards
    holds the run's cache. *)
Definition search_genre_engine (fetch : Search.Fetcher) (E : Search.GenreSearch)
    (artist title subtitle : string)
  : result (option (list GenrePath) * Search.GenreSearch) :=
  st <- Search.get_genres E fetch artist title (Some subtitle) ;;
  Ok (match Search.rs_genres st with [] => None | g => Some g end,
      Search.with_cache E (Search.rs_cache st)).

(** The signals the thread emits. *)
Inductive event : Type :=
| ProgressUpdate (current total : nat) (title : string)
| GenresFound (idx : nat) (gs : list GenrePath)
| NoGenreFound (idx : nat)
| SearchComplete.

Section Batch.
(** The state of the search engine the thread owns. *)
Variable St : Type.
(** [self._search_genre], threading the engine's state. *)
Variable search_genre :
  St -> string -> string -> string -> result (option (list GenrePath) * St).
(** [strip_common_sm_words] of [utils/sm_utils.py] (regular-expression
    clean-up of titles). *)
Variable strip_common_sm_words : string -> string.
Variable check_audio_files : bool.
(** What [File(simfile.music)] reads. *)
Variable read_audio : string -> option Audio.AudioTags.
(** [self._cancelled] as read at the top of iteration [idx]; [cancel]
    may set it from another thread at any time. *)
Variable cancelled : nat -> bool.

(** [_do_search_for_simfile]. The audio branch returns normally only
    when it made no search, so the state after it is the state before. *)
Definition do_search_for_simfile (st : St) (sf : SimfileMetadata)
  : result (option (list GenrePath) * St) :=
  let artist := sf_artist sf in
  let title := strip_common_sm_words (sf_title sf) in
  let subtitle := strip_common_sm_words (sf_subtitle sf) in
  n <- search_genre st artist title subtitle ;;
  let '(normal_results, st1) := n in
  let result1 := match normal_results with Some l => l | None => [] end in
  r <- (if negb (String.eqb (sf_artisttranslit sf) "")
           || negb (String.eqb (sf_titletranslit sf) "") then
          let artist := strip_common_sm_words (str_or (sf_artisttranslit sf) (sf_artist sf)) in
          let title := strip_common_sm_words (str_or (sf_titletranslit sf) (sf_title sf)) in
          let subtitle :=
            strip_common_sm_words (str_or (sf_subtitletranslit sf) (sf_subtitle sf)) in
          tr <- search_genre st1 artist title subtitle ;;
          let '(result_translit, st2) := tr in
          Ok (match result_translit with Some l => result1 ++ l | None => result1 end, st2)
        else Ok (result1, st1)) ;;
  let '(result2, st2) := r in
  result3 <- Audio.audio_branch
               (fun a t s => x <- search_genre st2 a t s ;; Ok (fst x))
               check_audio_files (sf_music sf)
               (match sf_music sf with Some m => read_audio m | None => None end)
               result2 ;;
  Ok (match result3 with [] => None | _ => Some result3 end, st2).

(** The loop of [run] from iteration [idx]: the emitted signals, and the
    exception that ended the thread, if any. *)
Fixpoint run_from (idx total : nat) (sfs : list SimfileMetadata) (st : St)
  : list event * option exn :=
  match sfs with
  | [] => ([SearchComplete], None)
  | sf :: r =>
      if cancelled idx then ([SearchComplete], None)
      else
        let pe := ProgressUpdate (S idx) total (sf_title sf) in
        match do_search_for_simfile st sf with
        | Err e => ([pe], Some e)
        | Ok (res, st') =>
            let ev := match res with
                      | Some l => GenresFound idx l
                      | None => NoGenreFound idx
                      end in
            let '(evs, e) := run_from (S idx) total r st' in
            (pe :: ev :: evs, e)
        end
  end.

(** [run]. *)
Definition run (sfs : list SimfileMetadata) (st : St) : list event * option exn :=
  run_from 0 (length sfs) sfs st.

End Batch.

End Runner.

(** * Properties *)

(** ** Facts about the Python fragments *)

Lemma py_in_iff (x : string) (xs : list string) : py_in x xs = true <-> In x xs.
Proof.
  unfold py_in. rewrite existsb_exists. split.
  - intros [y [Hy Heq]]. apply String.eqb_eq in Heq. subst. exact Hy.
  - intros H. exists x. split; [exact H | apply String.eqb_refl].
Qed.

Lemma py_in_false (x : string) (xs : list string) : ~ In x xs -> py_in x xs = false.
Proof.
  intros H. destruct (py_in x xs) eqn:E; [|reflexivity].
  exfalso. apply H. apply py_in_iff. exact E.
Qed.

(** Closes [~ In x l] for concrete strings. *)
Ltac not_in_tac :=
  let H := fresh "H" in
  intros H; simpl in H; repeat (destruct H as [H|H]; [discriminate H|]); exact H.

Module PickFacts.
Import GenrePick.

Lemma first_in_none (regs g : list string) :
  (forall r, In r regs -> ~ In r g) -> first_in regs g = None.
Proof.
  induction regs as [|r rs IH]; intros H; simpl; [reflexivity|].
  rewrite py_in_false by (apply H; left; reflexivity).
  apply IH. intros r' Hr'. apply H. right. exact Hr'.
Qed.

Lemma pop_loop_none (gs : list (list string)) :
  (forall p, In p gs -> (forall r, In r regional_pop_genres -> ~ In r p) /\ ~ In "Pop" p) ->
  pop_loop gs = None.
Proof.
  induction gs as [|g r IH]; intros H; simpl; [reflexivity|].
  destruct (H g (or_introl eq_refl)) as [Hreg Hpop].
  unfold get_regional_pop. rewrite (first_in_none _ _ Hreg). simpl.
  unfold get_pop. rewrite (py_in_false _ _ Hpop). simpl.
  apply IH. intros p Hp. apply H. right. exact Hp.
Qed.

Lemma dance_loop_none (gs : list (list string)) :
  (forall p, In p gs -> ~ In "Dance" p) -> dance_loop gs = Ok None.
Proof.
  induction gs as [|g r IH]; intros H; simpl; [reflexivity|].
  unfold get_dance_genre. rewrite (py_in_false _ _ (H g (or_introl eq_refl))). simpl.
  apply IH. intros p Hp. apply H. right. exact Hp.
Qed.

Lemma max_len_from_keep {A} (g : list A) (post : list (list A)) :
  Forall (fun p => length p <= length g) post -> max_len_from g post = g.
Proof.
  induction 1 as [|p post Hp _ IH]; simpl; [reflexivity|].
  destruct (Nat.ltb_spec (length g) (length p)); [lia | exact IH].
Qed.

Lemma max_len_from_skip {A} (pre : list (list A)) (b g : list A) (post : list (list A)) :
  length b < length g -> Forall (fun p => length p < length g) pre ->
  max_len_from b (pre ++ g :: post) = max_len_from g post.
Proof.
  revert b. induction pre as [|p pre IH]; intros b Hb Hpre; simpl.
  - destruct (Nat.ltb_spec (length b) (length g)); [reflexivity | lia].
  - inversion Hpre as [|? ? Hp Hpre']; subst.
    destruct (Nat.ltb (length b) (length p)); apply IH; assumption.
Qed.

(** [max(.., key=len)] picks the first path of maximal length. *)
Lemma py_max_len_first {A} (pre : list (list A)) (g : list A) (post : list (list A)) :
  Forall (fun p => length p < length g) pre ->
  Forall (fun p => length p <= length g) post ->
  py_max_len (pre ++ g :: post) = Ok g.
Proof.
  intros Hpre Hpost. destruct pre as [|p pre]; simpl.
  - f_equal. apply max_len_from_keep. exact Hpost.
  - inversion Hpre as [|? ? Hp Hpre']; subst.
    rewrite max_len_from_skip by assumption.
    f_equal. apply max_len_from_keep. exact Hpost.
Qed.

(** [list.remove] without the error case. *)
Fixpoint remove_first (x : string) (xs : list string) : list string :=
  match xs with
  | [] => []
  | y :: ys => if String.eqb x y then ys else y :: remove_first x ys
  end.

Lemma py_remove_in (x : string) (xs : list string) :
  In x xs -> py_remove x xs = Ok (remove_first x xs).
Proof.
  induction xs as [|y ys IH]; simpl; [intros []|].
  intros H. destruct (String.eqb_spec x y) as [ -> | Hne]; [reflexivity|].
  destruct H as [->|H]; [congruence|]. rewrite (IH H). reflexivity.
Qed.

Lemma remove_first_keeps (x y : string) (xs : list string) :
  x <> y -> In y xs -> In y (remove_first x xs).
Proof.
  intros Hne. induction xs as [|z zs IH]; simpl; [intros []|].
  intros [->|H].
  - destruct (String.eqb_spec x y); [congruence | left; reflexivity].
  - destruct (String.eqb x z); [exact H | right; apply IH; exact H].
Qed.

End PickFacts.

(** C1 (code_bug witness): on [[Pop]; [Electronic; Dance; J-Pop]] the
    first loop of [pick_genre] returns "Pop" from the first path before
    the second path is checked for a regional pop tag. *)
Lemma pick_genre_pop_before_regional :
  GenrePick.pick_genre [["Pop"]; ["Electronic"; "Dance"; "J-Pop"]] = Ok "Pop".
Proof. vm_compute. reflexivity. Qed.

(** C2 (counterexample): on [[Rock]; [Electronic; Synthwave]] the picker
    returns "Electronic", the first element of the longest path, not the
    leaf "Synthwave". *)
Lemma pick_genre_longest_not_leaf :
  GenrePick.pick_genre [["Rock"]; ["Electronic"; "Synthwave"]] = Ok "Electronic" /\
  GenrePick.pick_genre [["Rock"]; ["Electronic"; "Synthwave"]] <> Ok "Synthwave".
Proof. split; vm_compute; [reflexivity | discriminate]. Qed.

(** C2 (amended): when no path holds a regional pop tag, "Pop" or
    "Dance", [pick_genre] returns the first element (index 0) of the
    first longest path, provided that path is not empty. *)
Theorem pick_genre_longest_first_element
    (pre post : list (list string)) (x : string) (rest : list string) :
  (forall p, In p (pre ++ (x :: rest) :: post) ->
     (forall r, In r GenrePick.regional_pop_genres -> ~ In r p) /\
     ~ In "Pop" p /\ ~ In "Dance" p) ->
  Forall (fun p => length p < length (x :: rest)) pre ->
  Forall (fun p => length p <= length (x :: rest)) post ->
  GenrePick.pick_genre (pre ++ (x :: rest) :: post) = Ok x.
Proof.
  intros H Hpre Hpost. unfold GenrePick.pick_genre.
  rewrite PickFacts.pop_loop_none
    by (intros p Hp; destruct (H p Hp) as [A [B _]]; split; assumption).
  rewrite PickFacts.dance_loop_none by (intros p Hp; apply (H p Hp)).
  simpl. rewrite PickFacts.py_max_len_first by assumption. reflexivity.
Qed.

Lemma pick_genre_longest_first_element_witness :
  GenrePick.pick_genre ([["Rock"]] ++ ["Electronic"; "Synthwave"] :: []) = Ok "Electronic".
Proof.
  apply (pick_genre_longest_first_element [["Rock"]] [] "Electronic" ["Synthwave"]).
  - intros p Hp. simpl in Hp.
    destruct Hp as [<-|[<-|[]]];
      (split;
       [intros r Hr Hin; simpl in Hin;
        repeat (destruct Hin as [<-|Hin]; [revert Hr; not_in_tac|]); exact Hin
       | split; not_in_tac]).
  - repeat constructor.
  - constructor.
Defined.

(** C9: [pick_genre [[Electronic; Dance; Uk Garage]]] is "Electronic";
    in general, for a path holding "Dance", [get_dance_genre] drops the
    first "Uk Garage" (on a copy), then returns the second-to-last
    element of what remains, or its last when one element remains. *)
Theorem pick_genre_dance_demotion :
  GenrePick.pick_genre [["Electronic"; "Dance"; "Uk Garage"]] = Ok "Electronic" /\
  (forall g, In "Dance" g ->
     let g' := if py_in "Uk Garage" g then PickFacts.remove_first "Uk Garage" g else g in
     GenrePick.get_dance_genre g =
       Ok (Some (if Nat.ltb 1 (length g') then nth (length g' - 2) g' ""
                 else nth (length g' - 1) g' ""))).
Proof.
  split; [vm_compute; reflexivity|].
  intros g Hd g'. unfold GenrePick.get_dance_genre.
  assert (Hin : In "Dance" g').
  { unfold g'. destruct (py_in "Uk Garage" g); [|exact Hd].
    apply PickFacts.remove_first_keeps; [discriminate | exact Hd]. }
  assert (Hlen : 1 <= length g') by (destruct g'; [destruct Hin | simpl; lia]).
  rewrite (proj2 (py_in_iff _ _) Hd).
  replace (if py_in "Uk Garage" g then py_remove "Uk Garage" g else Ok g) with (Ok g' : result (list string)).
  2:{ unfold g'. destruct (py_in "Uk Garage" g) eqn:E; [|reflexivity].
      rewrite PickFacts.py_remove_in by (apply py_in_iff; exact E). reflexivity. }
  simpl. unfold py_neg_index.
  destruct (Nat.ltb_spec 1 (length g')) as [H1|H1].
  - destruct (Nat.ltb_spec (length g') 2); [lia|].
    rewrite (nth_error_nth' g' "" (n := length g' - 2)) by lia. reflexivity.
  - destruct (Nat.ltb_spec (length g') 1); [lia|].
    rewrite (nth_error_nth' g' "" (n := length g' - 1)) by lia. reflexivity.
Qed.

(** ** The batch runner's set-up *)

Lemma move_animethemes_last_ok (srcs : list string) :
  Thread.move_animethemes_last srcs =
    Ok (if py_in "animethemes" srcs
        then PickFacts.remove_first "animethemes" srcs ++ ["animethemes"]
        else srcs).
Proof.
  unfold Thread.move_animethemes_last.
  destruct (py_in "animethemes" srcs) eqn:E; [|reflexivity].
  rewrite PickFacts.py_remove_in by (apply py_in_iff; exact E). reflexivity.
Qed.

(** C10: [_setup_genre_search] passes [similarity_threshold] to
    [SearchOptions], which does not declare it: the construction raises
    [TypeError] whatever the configuration, so does the constructor of
    [GenreSearchThread]; and reading [similarity_threshold] on any
    [SearchOptions] instance is an [AttributeError]. *)
Theorem search_options_threshold_type_error :
  ~ In "similarity_threshold" SearchOptions_fields /\
  (forall lastfm discogs thresh sources cache_path loaded,
     Thread.setup_genre_search lastfm discogs thresh sources cache_path loaded
       = Err TypeError) /\
  (forall srcs lastfm discogs thresh cache_path loaded,
     Thread.thread_init srcs lastfm discogs thresh cache_path loaded = Err TypeError) /\
  (forall o, SearchOptions_getattr o "similarity_threshold" = Err AttributeError).
Proof.
  assert (Hsetup : forall lastfm discogs thresh sources cache_path loaded,
     Thread.setup_genre_search lastfm discogs thresh sources cache_path loaded
       = Err TypeError) by reflexivity.
  split; [not_in_tac|]. split; [exact Hsetup|]. split.
  - intros. unfold Thread.thread_init. rewrite move_animethemes_last_ok. apply Hsetup.
  - reflexivity.
Qed.

(** ** The display tree *)
Module TreeFacts.
Import Tree.

Lemma build_from_other (h : Store) (ls : list nat) (t : list (string * tree)) (l : nat) :
  ~ In l ls -> snd (build_from h ls t) l = h l.
Proof.
  revert h t. induction ls as [|l0 r IH]; intros h t Hn; simpl; [reflexivity|].
  rewrite IH by (intros H; apply Hn; right; exact H).
  unfold store_upd. destruct (Nat.eqb_spec l0 l); [|reflexivity].
  exfalso. apply Hn. left. exact e.
Qed.

(** Every path object handed to [build_genre_tree] comes back reversed. *)
Lemma build_genre_tree_reverses (h : Store) (ls : list nat) :
  NoDup ls -> forall l, In l ls -> snd (build_genre_tree h ls) l = rev (h l).
Proof.
  unfold build_genre_tree. generalize (@nil (string * tree)).
  revert h. induction ls as [|l0 r IH]; intros h t Hnd l Hl; [destruct Hl|].
  inversion Hnd as [|? ? Hn Hnd']; subst. simpl.
  destruct Hl as [<-|Hl].
  - rewrite build_from_other by exact Hn. unfold store_upd. rewrite Nat.eqb_refl. reflexivity.
  - rewrite IH by assumption. unfold store_upd.
    destruct (Nat.eqb_spec l0 l); [subst; contradiction | reflexivity].
Qed.

End TreeFacts.

(** C6 (code_bug witness): [build_genre_tree] on the one path object
    [Electronic; Dance] leaves that object as [Dance; Electronic]. *)
Lemma build_genre_tree_mutates_path :
  let h0 : Tree.Store := fun _ => [mkGenreTag "Electronic" 1; mkGenreTag "Dance" 1] in
  snd (Tree.build_genre_tree h0 [0]) 0 = [mkGenreTag "Dance" 1; mkGenreTag "Electronic" 1] /\
  snd (Tree.build_genre_tree h0 [0]) 0 <> h0 0.
Proof.
  split; [reflexivity|]. simpl. intros H. inversion H.
Qed.

(** ** The audio branch *)

(** Whenever the audio file yields metadata, the audio branch raises:
    [audio_metadata.genre] is not an attribute of [AudioMetadata]. *)
Lemma audio_branch_never_returns
    (search : string -> string -> string -> result (option (list GenrePath)))
    (music : option string) (audio : option Audio.AudioTags)
    (m : Audio.AudioMetadata) (result0 : list GenrePath) :
  Audio.str_truthy music = true -> Audio.from_audio_file audio = Ok (Some m) ->
  forall v, Audio.audio_branch search true music audio result0 <> Ok v.
Proof.
  intros Hm Ha v. unfold Audio.audio_branch. rewrite Hm, Ha. simpl.
  destruct (Audio.str_truthy (Audio.am_artist m) && Audio.str_truthy (Audio.am_title m)).
  - destruct (search _ _ _); simpl; discriminate.
  - simpl. discriminate.
Qed.

(** C8 (code_bug witness): with audio checking on, a file tagged
    TITLE "T", ARTIST "A", GENRE "Rock;Pop" and a search that finds
    nothing, the per-song search raises [AttributeError] instead of
    merging genres; and the splitting in [from_audio_file] leaves
    "Rock;Pop" whole. *)
Lemma audio_genre_not_merged :
  Audio.audio_branch (fun _ _ _ => Ok None) true (Some "song.ogg")
    (Some (Audio.mkAudioTags (Some ["T"]) (Some ["A"]) None (Some ["Rock;Pop"]))) []
    = Err AttributeError /\
  Audio.split_genres ["Rock;Pop"] = ["Rock;Pop"].
Proof. split; vm_compute; reflexivity. Qed.

(** ** The cache file round trip *)
Module CacheFacts.
Import CacheFile.

Definition map_vals {A B} (f : A -> B) (l : list (string * A)) : list (string * B) :=
  map (fun kv => (fst kv, f (snd kv))) l.

Lemma dict_set_keys {A} (d : list (string * A)) (k : string) (v : A) :
  map fst (dict_set d k v) =
    if existsb (String.eqb k) (map fst d) then map fst d else map fst d ++ [k].
Proof.
  induction d as [|[k' v'] r IH]; simpl; [reflexivity|].
  destruct (String.eqb_spec k' k) as [ -> | Hne].
  - rewrite String.eqb_refl. reflexivity.
  - simpl. rewrite IH. destruct (String.eqb_spec k k'); [congruence|].
    destruct (existsb (String.eqb k) (map fst r)); reflexivity.
Qed.

Lemma dict_set_nodup {A} (d : list (string * A)) (k : string) (v : A) :
  NoDup (map fst d) -> NoDup (map fst (dict_set d k v)).
Proof.
  intros H. rewrite dict_set_keys.
  destruct (existsb (String.eqb k) (map fst d)) eqn:E; [exact H|].
  apply NoDup_app; [exact H | repeat constructor; intros [] |].
  intros x Hx [<-|[]].
  apply (proj2 (py_in_iff k (map fst d))) in Hx. unfold py_in in Hx. congruence.
Qed.

Lemma dict_build_nodup {A} (l : list (string * A)) : NoDup (map fst (dict_build l)).
Proof.
  unfold dict_build.
  assert (G : forall acc, NoDup (map fst acc) ->
            NoDup (map fst (fold_left (fun acc kv => dict_set acc (fst kv) (snd kv)) l acc))).
  { induction l as [|kv r IH]; intros acc H; simpl; [exact H|].
    apply IH. apply dict_set_nodup. exact H. }
  apply G. constructor.
Qed.

Lemma dict_set_fresh {A} (d : list (string * A)) (k : string) (v : A) :
  ~ In k (map fst d) -> dict_set d k v = d ++ [(k, v)].
Proof.
  induction d as [|[k' v'] r IH]; intros H; simpl; [reflexivity|].
  destruct (String.eqb_spec k' k) as [ -> | Hne].
  - exfalso. apply H. left. reflexivity.
  - rewrite IH; [reflexivity|]. intros Hk. apply H. right. exact Hk.
Qed.

(** Filling a dict from distinct keys keeps them in order. *)
Lemma dict_build_id {A} (l : list (string * A)) : NoDup (map fst l) -> dict_build l = l.
Proof.
  unfold dict_build.
  assert (G : forall acc, NoDup (map fst acc ++ map fst l) ->
            fold_left (fun acc kv => dict_set acc (fst kv) (snd kv)) l acc = acc ++ l).
  { induction l as [|[k v] r IH]; intros acc H; simpl; [rewrite app_nil_r; reflexivity|].
    rewrite dict_set_fresh.
    - rewrite IH; [rewrite <- app_assoc; reflexivity|].
      rewrite map_app, <- app_assoc. exact H.
    - intros Hk. simpl in H. apply NoDup_remove_2 in H. apply H.
      apply in_or_app. left. exact Hk. }
  intros H. apply G. exact H.
Qed.

Lemma dict_set_map_vals {A B} (f : A -> B) (d : list (string * A)) (k : string) (v : A) :
  dict_set (map_vals f d) k (f v) = map_vals f (dict_set d k v).
Proof.
  induction d as [|[k' v'] r IH]; simpl; [reflexivity|].
  destruct (String.eqb k' k); [reflexivity|]. simpl. rewrite IH. reflexivity.
Qed.

Lemma dict_build_map_vals {A B} (f : A -> B) (l : list (string * A)) :
  dict_build (map_vals f l) = map_vals f (dict_build l).
Proof.
  unfold dict_build.
  assert (G : forall acc,
      fold_left (fun acc kv => dict_set acc (fst kv) (snd kv)) (map_vals f l) (map_vals f acc)
      = map_vals f (fold_left (fun acc kv => dict_set acc (fst kv) (snd kv)) l acc)).
  { induction l as [|[k v] r IH]; intros acc; simpl; [reflexivity|].
    rewrite dict_set_map_vals. apply IH. }
  apply (G []).
Qed.

Lemma map_vals_keys {A B} (f : A -> B) (l : list (string * A)) :
  map fst (map_vals f l) = map fst l.
Proof. unfold map_vals. rewrite map_map. reflexivity. Qed.

Lemma map_vals_comp {A B C} (f : A -> B) (g : B -> C) (l : list (string * A)) :
  map_vals g (map_vals f l) = map_vals (fun x => g (f x)) l.
Proof. unfold map_vals. rewrite map_map. reflexivity. Qed.

Lemma mapM_vals {A B C} (h : B -> result C) (F : A -> B) (H : A -> C) (l : list (string * A)) :
  (forall v, h (F v) = Ok (H v)) ->
  mapM (fun kv => y <- h (snd kv) ;; Ok (fst kv, y)) (map_vals F l) = Ok (map_vals H l).
Proof.
  intros Hh. induction l as [|[k v] r IH]; simpl; [reflexivity|].
  rewrite Hh. simpl. rewrite IH. reflexivity.
Qed.

Lemma mapM_map {A B} (f : A -> result B) (g : B -> A) (l : list B) :
  (forall x, f (g x) = Ok x) -> mapM f (map g l) = Ok l.
Proof.
  intros Hf. induction l as [|x r IH]; simpl; [reflexivity|].
  rewrite Hf. simpl. rewrite IH. reflexivity.
Qed.

Lemma from_dict_as_dict (g : GenreTag) : GenreTag_from_dict (tag_as_dict g) = Ok g.
Proof. destruct g. reflexivity. Qed.

Definition groups_json (groups : list GenrePath) : json :=
  JArr (map (fun gs => JArr (map tag_as_dict gs)) groups).

Definition obj_json (obj : Search.ProviderMap) : json :=
  JObj (map_vals groups_json (dict_build obj)).

Lemma cache_as_dicts_eq (c : Search.Cache) :
  cache_as_dicts c = map_vals obj_json (dict_build c).
Proof.
  unfold cache_as_dicts. fold (map_vals groups_json).
  unfold obj_json. rewrite <- dict_build_map_vals.
  unfold map_vals. f_equal. apply map_ext. intros [k o]. simpl.
  exact (f_equal (fun x => (k, JObj x)) (dict_build_map_vals groups_json o)).
Qed.

Lemma load_groups_json (groups : list GenrePath) : load_groups (groups_json groups) = Ok groups.
Proof.
  unfold load_groups, groups_json. apply mapM_map. intros gs. simpl.
  apply mapM_map. apply from_dict_as_dict.
Qed.

Lemma load_obj_json (obj : Search.ProviderMap) : load_obj (obj_json obj) = Ok (dict_build obj).
Proof.
  unfold load_obj, obj_json. rewrite (mapM_vals load_groups groups_json (fun x => x)) by apply load_groups_json.
  simpl. f_equal. unfold map_vals. rewrite map_ext with (g := fun kv => kv)
    by (intros [k v]; reflexivity). rewrite map_id.
  apply dict_build_id, dict_build_nodup.
Qed.

Lemma obj_json_build (obj : Search.ProviderMap) : obj_json (dict_build obj) = obj_json obj.
Proof. unfold obj_json. rewrite (dict_build_id (dict_build obj)) by apply dict_build_nodup. reflexivity. Qed.

End CacheFacts.

(** C7: re-saving a loaded cache file gives back the saved document:
    [save (load (save c)) = save c] for every cache [c]. *)
Theorem cache_save_load_roundtrip (c : Search.Cache) :
  bind (CacheFile.load (CacheFile.save c)) (fun c' => Ok (CacheFile.save c')) =
    Ok (CacheFile.save c).
Proof.
  unfold CacheFile.save, CacheFile.load. rewrite CacheFacts.cache_as_dicts_eq.
  rewrite (CacheFacts.mapM_vals CacheFile.load_obj CacheFacts.obj_json CacheFile.dict_build) by apply CacheFacts.load_obj_json.
  simpl. rewrite CacheFacts.dict_build_id
    by (rewrite CacheFacts.map_vals_keys; apply CacheFacts.dict_build_nodup).
  rewrite CacheFacts.cache_as_dicts_eq.
  rewrite CacheFacts.dict_build_id
    by (rewrite CacheFacts.map_vals_keys; apply CacheFacts.dict_build_nodup).
  rewrite CacheFacts.map_vals_comp. unfold CacheFacts.map_vals. apply (f_equal (fun l => Ok (CacheFile.JObj l))).
  apply map_ext. intros [k o]. simpl. rewrite CacheFacts.obj_json_build. reflexivity.
Qed.

(** ** The orchestrator *)
Module SearchFacts.
Import Search.

Lemma dict_get_set {A} (d : list (string * A)) (k k' : string) (v : A) :
  dict_get (dict_set d k v) k' = if String.eqb k k' then Some v else dict_get d k'.
Proof.
  induction d as [|[k0 v0] r IH]; simpl.
  - destruct (String.eqb k k'); reflexivity.
  - destruct (String.eqb_spec k0 k) as [ -> | Hne]; simpl.
    + destruct (String.eqb k k'); reflexivity.
    + rewrite IH. destruct (String.eqb_spec k0 k') as [->|Hne']; [|reflexivity].
      destruct (String.eqb_spec k k'); [congruence | reflexivity].
Qed.

Lemma get_add_to_cache (c : Cache) (k : string) (gs : list GenrePath) (q p : string) :
  get_from_cache (add_to_cache c k gs q) k p =
    if String.eqb q p then Some gs else get_from_cache c k p.
Proof.
  unfold get_from_cache, add_to_cache. rewrite dict_get_set, String.eqb_refl.
  rewrite dict_get_set. destruct (dict_get c k); reflexivity.
Qed.

Section Run.
Variables (E : GenreSearch) (fetch : Fetcher) (a t : string) (s : option string).

Abbreviation K := (key a t s).
Abbreviation step := (step E fetch a t s).
Abbreviation loop := (loop E fetch a t s).

(** What one iteration can do. *)
Lemma step_cases (p : string) (g : list GenrePath) (c : Cache) (f cs : list string)
    (ct : list (string * list GenrePath)) (st' : run_state) :
  step p (mkRun g c f cs ct) = Ok st' ->
  (st' = mkRun g c f cs ct /\ p = "animethemes" /\ g <> []) \/
  ((String.eqb p "animethemes" && Nat.ltb 0 (length g)) = false /\
   ((exists cg, get_from_cache c K p = Some cg /\
                st' = mkRun (g ++ cg) c f (cs ++ [p]) (ct ++ [(p, cg)])) \/
    (get_from_cache c K p = None /\
     (st' = mkRun g c (f ++ [p]) (cs ++ [p]) ct \/
      (fetch (length f) p a t s = FetchNone /\
       st' = mkRun g (add_to_cache c K [] p) (f ++ [p]) (cs ++ [p]) ct) \/
      (exists tg rg, fetch (length f) p a t s = FetchSome tg /\
         below_threshold (thr_attr E) (match_score tg) = Ok false /\
         st' = mkRun (g ++ rg) (add_to_cache c K rg p) (f ++ [p]) (cs ++ [p])
                     (ct ++ [(p, rg)])))))).
Proof.
  unfold Search.step. intros H.
  destruct (String.eqb p "animethemes" && Nat.ltb 0 (length g)) eqn:Hs.
  { left. inversion H; subst. apply andb_prop in Hs as [Hp Hl].
    apply String.eqb_eq in Hp. apply Nat.ltb_lt in Hl.
    repeat split; [exact Hp|]. intros ->. simpl in Hl. lia. }
  right. split; [reflexivity|].
  destruct (get_from_cache c K p) as [cg|] eqn:Hc.
  { left. exists cg. inversion H; subst. split; reflexivity. }
  right. split; [reflexivity|].
  destruct (negb (py_in p (searchers E))); [discriminate|].
  destruct (fetch (length f) p a t s) as [ | | tg] eqn:Hf.
  - left. inversion H. reflexivity.
  - right. left. inversion H. split; reflexivity.
  - destruct (below_threshold (thr_attr E) (match_score tg)) as [[|]|e] eqn:Hb.
    + left. inversion H. reflexivity.
    + right. right. eexists tg, _. split; [reflexivity|]. split; [exact Hb|].
      inversion H. reflexivity.
    + left. inversion H. reflexivity.
Qed.

Definition run_inv (st : run_state) : Prop :=
  rs_genres st = concat (map snd (rs_contribs st)).

Lemma step_inv (p : string) (st st' : run_state) :
  step p st = Ok st' -> run_inv st -> run_inv st'.
Proof.
  destruct st as [g c f cs ct]. unfold run_inv. simpl. intros H Hi.
  apply step_cases in H.
  destruct H as [[-> _]|[_ [[cg [_ ->]]|[_ [->|[[_ ->]|[tg [rg [_ [_ ->]]]]]]]]]];
    simpl; rewrite ?map_app, ?concat_app, ?Hi; simpl; rewrite ?app_nil_r; reflexivity.
Qed.

Lemma loop_inv (order : list string) (st st' : run_state) :
  loop order st = Ok st' -> run_inv st -> run_inv st'.
Proof.
  revert st. induction order as [|p r IH]; intros st H Hi; simpl in H.
  - inversion H; subst. exact Hi.
  - destruct (step p st) as [sm|e] eqn:Hs; [|discriminate].
    exact (IH sm H (step_inv p st sm Hs Hi)).
Qed.

(** Contributions are appended, each named after the provider of its
    iteration. *)
Lemma step_contribs (p : string) (st st' : run_state) :
  step p st = Ok st' ->
  exists extra, rs_contribs st' = rs_contribs st ++ extra /\
                Forall (fun x => fst x = p) extra.
Proof.
  destruct st as [g c f cs ct]. simpl. intros H. apply step_cases in H.
  destruct H as [[-> _]|[_ [[cg [_ ->]]|[_ [->|[[_ ->]|[tg [rg [_ [_ ->]]]]]]]]]];
    simpl; first [exists []; rewrite app_nil_r; split; [reflexivity | constructor]
                 | eexists; split; [reflexivity | repeat constructor]].
Qed.

Lemma loop_contribs (order : list string) (st st' : run_state) :
  loop order st = Ok st' ->
  exists extra, rs_contribs st' = rs_contribs st ++ extra /\
                Forall (fun x => In (fst x) order) extra.
Proof.
  revert st. induction order as [|p r IH]; intros st H; simpl in H.
  - inversion H; subst. exists []. rewrite app_nil_r. split; [reflexivity | constructor].
  - destruct (step p st) as [sm|e] eqn:Hs; [|discriminate].
    destruct (step_contribs p st sm Hs) as [e1 [H1 F1]].
    destruct (IH sm H) as [e2 [H2 F2]].
    exists (e1 ++ e2). rewrite H2, H1, app_assoc. split; [reflexivity|].
    apply Forall_app. split.
    + eapply Forall_impl; [|exact F1]. intros x Hx. simpl. left. symmetry. exact Hx.
    + eapply Forall_impl; [|exact F2]. intros x Hx. simpl. right. exact Hx.
Qed.

(** The entries of the cache for the query key: an iteration for [p]
    only writes [(K, p)], and only where it was absent. *)
Lemma step_cache (p q : string) (st st' : run_state) :
  step p st = Ok st' ->
  (p <> q -> get_from_cache (rs_cache st') K q = get_from_cache (rs_cache st) K q) /\
  (forall v, get_from_cache (rs_cache st) K q = Some v ->
             get_from_cache (rs_cache st') K q = Some v).
Proof.
  destruct st as [g c f cs ct]. simpl. intros H. apply step_cases in H.
  destruct H as [[-> _]|[_ [[cg [_ ->]]|[Hc [->|[[_ ->]|[tg [rg [_ [_ ->]]]]]]]]]];
    simpl; try (split; [reflexivity | tauto]);
    rewrite get_add_to_cache; destruct (String.eqb_spec p q) as [ -> | Hne];
    (split; [intros; congruence | intros v Hv; congruence]).
Qed.

Lemma loop_cache_other (order : list string) (q : string) (st st' : run_state) :
  loop order st = Ok st' -> ~ In q order ->
  get_from_cache (rs_cache st') K q = get_from_cache (rs_cache st) K q.
Proof.
  revert st. induction order as [|p r IH]; intros st H Hn; simpl in H.
  - inversion H; subst. reflexivity.
  - destruct (step p st) as [sm|e] eqn:Hs; [|discriminate].
    rewrite (IH sm H) by (intros Hq; apply Hn; right; exact Hq).
    apply (proj1 (step_cache p q st sm Hs)). intros ->. apply Hn. left. reflexivity.
Qed.

Lemma loop_cache_keep (order : list string) (q : string) (st st' : run_state) (v : list GenrePath) :
  loop order st = Ok st' ->
  get_from_cache (rs_cache st) K q = Some v -> get_from_cache (rs_cache st') K q = Some v.
Proof.
  revert st. induction order as [|p r IH]; intros st H Hv; simpl in H.
  - inversion H; subst. exact Hv.
  - destruct (step p st) as [sm|e] eqn:Hs; [|discriminate].
    apply (IH sm H). apply (proj2 (step_cache p q st sm Hs)). exact Hv.
Qed.

Lemma loop_consulted (order : list string) (st st' : run_state) (q : string) :
  loop order st = Ok st' -> In q (rs_consulted st) -> In q (rs_consulted st').
Proof.
  revert st. induction order as [|p r IH]; intros st H Hq; simpl in H.
  - inversion H; subst. exact Hq.
  - destruct (step p st) as [sm|e] eqn:Hs; [|discriminate].
    apply (IH sm H). destruct st as [g c f cs ct]. simpl in Hq |- *.
    apply step_cases in Hs.
    destruct Hs as [[-> _]|[_ [[cg [_ ->]]|[_ [->|[[_ ->]|[tg [rg [_ [_ ->]]]]]]]]]];
      simpl; try exact Hq; apply in_or_app; left; exact Hq.
Qed.

Lemma loop_cons (p : string) (r : list string) (st : run_state) :
  loop (p :: r) st = bind (step p st) (loop r).
Proof. reflexivity. Qed.

Lemma loop_app (l1 l2 : list string) (st : run_state) :
  loop (l1 ++ l2) st = bind (loop l1 st) (loop l2).
Proof.
  revert st. induction l1 as [|p r IH]; intros st; simpl; [reflexivity|].
  destruct (step p st); simpl; [apply IH | reflexivity].
Qed.

Lemma step_skip (p : string) (st : run_state) :
  (String.eqb p "animethemes" && Nat.ltb 0 (length (rs_genres st))) = true ->
  step p st = Ok st.
Proof. destruct st. unfold Search.step. simpl. intros ->. reflexivity. Qed.

Lemma step_hit (p : string) (g : list GenrePath) (c : Cache) (f cs : list string)
    (ct : list (string * list GenrePath)) (cg : list GenrePath) :
  (String.eqb p "animethemes" && Nat.ltb 0 (length g)) = false ->
  get_from_cache c K p = Some cg ->
  step p (mkRun g c f cs ct) = Ok (mkRun (g ++ cg) c f (cs ++ [p]) (ct ++ [(p, cg)])).
Proof. unfold Search.step. intros -> ->. reflexivity. Qed.

End Run.

Lemma concat_nil_in (l : list (string * list GenrePath)) (q : string) (qs : list GenrePath) :
  concat (map snd l) = [] -> In (q, qs) l -> qs = [].
Proof.
  induction l as [|[k v] r IH]; simpl; [intros _ []|].
  intros H [Heq|Hin].
  - inversion Heq; subst. destruct qs; [reflexivity | discriminate].
  - apply IH; [|exact Hin]. destruct v; [exact H | discriminate].
Qed.

Lemma remove_first_nodup (x : string) (l : list string) :
  NoDup l -> ~ In x (PickFacts.remove_first x l).
Proof.
  induction 1 as [|y ys Hy Hnd IH]; simpl; [tauto|].
  destruct (String.eqb_spec x y) as [ -> | Hne]; [exact Hy|].
  intros [Heq|Hin]; [congruence | exact (IH Hin)].
Qed.

Section Replay.
Variables (E : GenreSearch) (c1 : Cache) (fetch1 fetch2 : Fetcher) (a t : string)
          (s : option string).
Abbreviation E2 := (with_cache E c1).

(** Replaying a run on the cache it left behind. *)
Lemma replay (order : list string) (s1 s1' s2 : run_state) :
  NoDup order ->
  Search.loop E fetch1 a t s order s1 = Ok s1' ->
  (forall p, In p (rs_consulted s1') -> get_from_cache (rs_cache s1') (key a t s) p <> None) ->
  rs_genres s2 = rs_genres s1 -> rs_cache s2 = rs_cache s1' -> rs_fetched s2 = [] ->
  exists s2', Search.loop E2 fetch2 a t s order s2 = Ok s2' /\
    rs_genres s2' = rs_genres s1' /\ rs_cache s2' = rs_cache s1' /\ rs_fetched s2' = [].
Proof.
  revert s1 s2. induction order as [|p r IH]; intros s1 s2 Hnd H1 Hw Hg Hc Hf; simpl in H1.
  - inversion H1; subst. exists s2. simpl. repeat split; assumption.
  - inversion Hnd as [|? ? Hpr Hnd']; subst.
    destruct (Search.step E fetch1 a t s p s1) as [sm|e] eqn:Hs; [|discriminate].
    destruct s1 as [g c f cs ct]. destruct s2 as [g2 c2 f2 cs2 ct2].
    simpl in Hg, Hc, Hf. subst g2 c2 f2. rewrite loop_cons.
    pose proof (step_cases E fetch1 a t s p g c f cs ct sm Hs) as Hcase.
    destruct Hcase as [[-> [-> Hne]]|[Hns Hcase]].
    + rewrite step_skip.
      * simpl. apply (IH _ _ Hnd' H1 Hw); reflexivity.
      * simpl. destruct g; [congruence | reflexivity].
    + assert (Hcons : In p (rs_consulted s1')).
      { apply (loop_consulted E fetch1 a t s r sm s1' p H1).
        destruct Hcase as [[cg [_ ->]]|[_ [->|[[_ ->]|[tg [rg [_ [_ ->]]]]]]]];
          simpl; apply in_or_app; right; left; reflexivity. }
      destruct Hcase as [[cg [Hget ->]]|[Hget [->|[[_ ->]|[tg [rg [_ [_ ->]]]]]]]].
      * rewrite (step_hit E2 fetch2 a t s p g (rs_cache s1') [] cs2 ct2 cg Hns).
        -- simpl. apply (IH _ _ Hnd' H1 Hw); reflexivity.
        -- exact (loop_cache_keep E fetch1 a t s r p _ s1' cg H1 Hget).
      * exfalso. apply (Hw p Hcons).
        rewrite (loop_cache_other E fetch1 a t s r p _ s1' H1 Hpr). exact Hget.
      * rewrite (step_hit E2 fetch2 a t s p g (rs_cache s1') [] cs2 ct2 []).
        -- simpl. apply (IH _ _ Hnd' H1 Hw); [simpl; apply app_nil_r | reflexivity | reflexivity].
        -- exact Hns.
        -- apply (loop_cache_keep E fetch1 a t s r p _ s1' [] H1). simpl.
           rewrite get_add_to_cache, String.eqb_refl. reflexivity.
      * rewrite (step_hit E2 fetch2 a t s p g (rs_cache s1') [] cs2 ct2 rg).
        -- simpl. apply (IH _ _ Hnd' H1 Hw); reflexivity.
        -- exact Hns.
        -- apply (loop_cache_keep E fetch1 a t s r p _ s1' rg H1). simpl.
           rewrite get_add_to_cache, String.eqb_refl. reflexivity.
Qed.

End Replay.
End SearchFacts.

(** C3: if every answer of provider [p] to the query is a match scored
    strictly below the configured threshold, and [(key, p)] is not in
    the cache, then after [get_genres] the pair is still absent from the
    cache, [p] added nothing to the run, and the returned list is made
    of the other providers' contributions only. *)
Theorem below_threshold_not_kept (E : Search.GenreSearch) (fetch : Search.Fetcher)
    (a t : string) (s : option string) (p : string) (thr : Q) (st' : Search.run_state) :
  Search.thr_attr E = Ok (PNum thr) ->
  (forall i, exists tg, fetch i p a t s = Search.FetchSome tg /\ (Search.match_score tg < thr)%Q) ->
  Search.get_from_cache (Search.cache E) (Search.key a t s) p = None ->
  Search.get_genres E fetch a t s = Ok st' ->
  Search.get_from_cache (Search.rs_cache st') (Search.key a t s) p = None /\
  (forall ps, ~ In (p, ps) (Search.rs_contribs st')) /\
  Search.rs_genres st' = concat (map snd (Search.rs_contribs st')).
Proof.
  intros Hthr Hfetch Hc0 Hrun.
  assert (G : forall order st st',
    Search.loop E fetch a t s order st = Ok st' ->
    Search.get_from_cache (Search.rs_cache st) (Search.key a t s) p = None ->
    (forall ps, ~ In (p, ps) (Search.rs_contribs st)) ->
    Search.get_from_cache (Search.rs_cache st') (Search.key a t s) p = None /\
    (forall ps, ~ In (p, ps) (Search.rs_contribs st'))).
  { induction order as [|q r IH]; intros st st'' H Hc Hct; simpl in H.
    - inversion H; subst. split; assumption.
    - destruct (Search.step E fetch a t s q st) as [sm|e] eqn:Hs; [|discriminate].
      apply (IH sm st'' H).
      + destruct (String.eqb_spec q p) as [ -> | Hne].
        * destruct st as [g c f cs ct]. simpl in Hc |- *.
          apply SearchFacts.step_cases in Hs.
          destruct Hs as [[-> _]|[_ [[cg [Hget _]]|[_ [->|[[Hf ->]|[tg [rg [Hf [Hb ->]]]]]]]]]];
            simpl; try congruence.
          -- destruct (Hfetch (length f)) as [tg' [Hf' _]]. congruence.
          -- destruct (Hfetch (length f)) as [tg' [Hf' Hlt]]. rewrite Hf in Hf'.
             inversion Hf'; subst tg'. rewrite Hthr in Hb. simpl in Hb.
             destruct (Qle_bool thr (Search.match_score tg)) eqn:Hq; [|discriminate].
             apply Qle_bool_iff in Hq. exfalso. exact (Qlt_not_le _ _ Hlt Hq).
        * rewrite (proj1 (SearchFacts.step_cache E fetch a t s q p st sm Hs) Hne). exact Hc.
      + destruct (SearchFacts.step_contribs E fetch a t s q st sm Hs) as [extra [He Hf]].
        intros ps Hin. rewrite He in Hin. apply in_app_or in Hin as [Hin|Hin].
        * exact (Hct ps Hin).
        * rewrite Forall_forall in Hf. specialize (Hf _ Hin). simpl in Hf. subst q.
          destruct st as [g c f cs ct]. simpl in Hc.
          apply SearchFacts.step_cases in Hs.
          destruct Hs as [[-> _]|[_ [[cg [Hget _]]|[_ [->|[[Hf ->]|[tg [rg [Hf [Hb ->]]]]]]]]]];
            simpl in He; try congruence;
            try (apply (f_equal (@length _)) in He; rewrite length_app in He;
                 destruct extra; [destruct Hin | simpl in He; lia]).
          destruct (Hfetch (length f)) as [tg' [Hf' Hlt]]. rewrite Hf in Hf'.
          inversion Hf'; subst tg'. rewrite Hthr in Hb. simpl in Hb.
          destruct (Qle_bool thr (Search.match_score tg)) eqn:Hq; [|discriminate].
          apply Qle_bool_iff in Hq. exfalso. exact (Qlt_not_le _ _ Hlt Hq). }
  destruct (G _ _ _ Hrun Hc0 (fun ps H => H)) as [H1 H2].
  split; [exact H1|]. split; [exact H2|].
  exact (SearchFacts.loop_inv E fetch a t s _ _ _ Hrun eq_refl).
Qed.

Definition low_match : Search.TrackAndGenres :=
  Search.mkTrackAndGenres (1#2) [[mkGenreTag "Electronic" 1; mkGenreTag "Dance" 1]] [].

Definition thr_engine : Search.GenreSearch :=
  Search.mkGenreSearch (Ok (PNum (65#100))) [] ["lastfm"; "discogs"] ["lastfm"; "discogs"].

Definition thr_fetch : Search.Fetcher :=
  fun _ p _ _ _ =>
    if String.eqb p "lastfm" then Search.FetchSome low_match
    else Search.FetchSome (Search.mkTrackAndGenres 1 [[mkGenreTag "Rock" 1]] []).

Lemma below_threshold_not_kept_witness :
  exists st', Search.get_genres thr_engine thr_fetch "A" "T" None = Ok st' /\
  (Search.get_from_cache (Search.rs_cache st') (Search.key "A" "T" None) "lastfm" = None /\
   (forall ps, ~ In ("lastfm", ps) (Search.rs_contribs st')) /\
   Search.rs_genres st' = concat (map snd (Search.rs_contribs st'))).
Proof.
  eexists. split; [vm_compute; reflexivity|].
  apply (below_threshold_not_kept thr_engine thr_fetch "A" "T" None "lastfm" (65#100)).
  - reflexivity.
  - intros i. exists low_match. split; [reflexivity | vm_compute; reflexivity].
  - reflexivity.
  - vm_compute. reflexivity.
Defined.

(** C4: for a list of distinct search sources holding "animethemes",
    the batch runner's order puts "animethemes" last and only there; in
    a run on that order, a non-empty contribution of "animethemes" comes
    with empty contributions from every other provider, and the
    returned list is the concatenation of the contributions. *)
Theorem fallback_last_and_exclusive (L L' : list string) (E : Search.GenreSearch)
    (fetch : Search.Fetcher) (a t : string) (s : option string) (st' : Search.run_state) :
  NoDup L -> In "animethemes" L ->
  Thread.move_animethemes_last L = Ok L' ->
  Search.search_order E = L' ->
  Search.get_genres E fetch a t s = Ok st' ->
  last L' "" = "animethemes" /\ ~ In "animethemes" (removelast L') /\
  Search.rs_genres st' = concat (map snd (Search.rs_contribs st')) /\
  (forall ps, In ("animethemes", ps) (Search.rs_contribs st') -> ps <> [] ->
     forall q qs, In (q, qs) (Search.rs_contribs st') -> q <> "animethemes" -> qs = []).
Proof.
  intros Hnd Hin Hmove Hord Hrun.
  rewrite move_animethemes_last_ok, (proj2 (py_in_iff _ _) Hin) in Hmove.
  injection Hmove as HL'.
  set (R := PickFacts.remove_first "animethemes" L) in *.
  assert (HR : ~ In "animethemes" R) by apply SearchFacts.remove_first_nodup, Hnd.
  split; [rewrite <- HL'; apply last_last|].
  split; [rewrite <- HL', removelast_last; exact HR|].
  split; [exact (SearchFacts.loop_inv E fetch a t s _ _ _ Hrun eq_refl)|].
  unfold Search.get_genres in Hrun. rewrite Hord, <- HL', SearchFacts.loop_app in Hrun.
  destruct (Search.loop E fetch a t s R _) as [sm|e] eqn:HR1; [|discriminate].
  simpl in Hrun.
  destruct (Search.step E fetch a t s "animethemes" sm) as [sa|e] eqn:Hs; [|discriminate].
  simpl in Hrun. inversion Hrun; subst sa. clear Hrun.
  destruct (SearchFacts.loop_contribs E fetch a t s _ _ _ HR1) as [extra [Hex Hfx]].
  simpl in Hex.
  assert (Hno : forall ps, ~ In ("animethemes", ps) (Search.rs_contribs sm)).
  { intros ps Hps. rewrite Hex in Hps. rewrite Forall_forall in Hfx.
    exact (HR (Hfx _ Hps)). }
  pose proof (SearchFacts.loop_inv E fetch a t s _ _ _ HR1 eq_refl) as Hinv.
  destruct sm as [g c f cs ct]. unfold SearchFacts.run_inv in Hinv. simpl in Hno, Hinv.
  apply SearchFacts.step_cases in Hs.
  destruct Hs as [[-> _]|[Hns Hcase]].
  - intros ps Hps. exfalso. exact (Hno ps Hps).
  - rewrite String.eqb_refl in Hns. simpl in Hns.
    destruct g; [|discriminate]. clear Hns.
    intros ps _ _ q qs Hq Hqa.
    assert (Hct : In (q, qs) ct).
    { destruct Hcase as [[cg [_ ->]]|[_ [->|[[_ ->]|[tg [rg [_ [_ ->]]]]]]]];
        simpl in Hq; try exact Hq;
        apply in_app_or in Hq as [Hq|[Hq|[]]]; try exact Hq; inversion Hq; congruence. }
    exact (SearchFacts.concat_nil_in ct q qs (eq_sym Hinv) Hct).
Qed.

Definition anime_match : Search.TrackAndGenres :=
  Search.mkTrackAndGenres 1 [] [mkGenreTag "Anime" 0].

Definition fallback_engine : Search.GenreSearch :=
  Search.mkGenreSearch (Ok (PNum (65#100))) [] ["lastfm"; "animethemes"]
    ["lastfm"; "animethemes"].

Definition fallback_fetch : Search.Fetcher :=
  fun _ p _ _ _ =>
    if String.eqb p "lastfm" then Search.FetchNone else Search.FetchSome anime_match.

Lemma fallback_last_and_exclusive_witness :
  exists st', Search.get_genres fallback_engine fallback_fetch "A" "T" None = Ok st' /\
  (last ["lastfm"; "animethemes"] "" = "animethemes" /\
   ~ In "animethemes" (removelast ["lastfm"; "animethemes"]) /\
   Search.rs_genres st' = concat (map snd (Search.rs_contribs st')) /\
   (forall ps, In ("animethemes", ps) (Search.rs_contribs st') -> ps <> [] ->
      forall q qs, In (q, qs) (Search.rs_contribs st') -> q <> "animethemes" -> qs = [])).
Proof.
  eexists. split; [vm_compute; reflexivity|].
  apply (fallback_last_and_exclusive ["animethemes"; "lastfm"] ["lastfm"; "animethemes"]
           fallback_engine fallback_fetch "A" "T" None).
  - repeat constructor; simpl; intros H; repeat (destruct H as [H|H]; [discriminate H|]); exact H.
  - left. reflexivity.
  - reflexivity.
  - reflexivity.
  - vm_compute. reflexivity.
Defined.

(** C5: when the search order has no repeated provider and the first
    call of [get_genres] left every provider it consulted in the cache,
    a second call with the same query on the instance after the first
    fetches nothing, whatever the providers would answer, returns the
    same list and leaves the cache as it was. *)
Theorem warm_cache_replay (E : Search.GenreSearch) (fetch1 fetch2 : Search.Fetcher)
    (a t : string) (s : option string) (st1 : Search.run_state) :
  NoDup (Search.search_order E) ->
  Search.get_genres E fetch1 a t s = Ok st1 ->
  (forall p, In p (Search.rs_consulted st1) ->
     Search.get_from_cache (Search.rs_cache st1) (Search.key a t s) p <> None) ->
  exists st2,
    Search.get_genres (Search.with_cache E (Search.rs_cache st1)) fetch2 a t s = Ok st2 /\
    Search.rs_fetched st2 = [] /\ Search.rs_genres st2 = Search.rs_genres st1 /\
    Search.rs_cache st2 = Search.rs_cache st1.
Proof.
  intros Hnd H1 Hw. unfold Search.get_genres in *.
  destruct (SearchFacts.replay E (Search.rs_cache st1) fetch1 fetch2 a t s
              (Search.search_order E) _ st1
              (Search.mkRun [] (Search.rs_cache st1) [] [] []) Hnd H1 Hw
              eq_refl eq_refl eq_refl) as [st2 [H2 [Hg [Hc Hf]]]].
  exists st2. repeat split; assumption.
Qed.

Definition warm_fetch : Search.Fetcher :=
  fun _ p _ _ _ =>
    if String.eqb p "lastfm" then Search.FetchSome (Search.mkTrackAndGenres 1 [[mkGenreTag "Rock" 1]] [])
    else Search.FetchNone.

Lemma warm_cache_replay_witness :
  exists st1, Search.get_genres thr_engine warm_fetch "A" "T" None = Ok st1 /\
  exists st2,
    Search.get_genres (Search.with_cache thr_engine (Search.rs_cache st1))
      (fun _ _ _ _ _ => Search.FetchRaises) "A" "T" None = Ok st2 /\
    Search.rs_fetched st2 = [] /\ Search.rs_genres st2 = Search.rs_genres st1 /\
    Search.rs_cache st2 = Search.rs_cache st1.
Proof.
  eexists. split; [vm_compute; reflexivity|].
  apply (warm_cache_replay thr_engine warm_fetch).
  - repeat constructor; simpl; intros H; repeat (destruct H as [H|H]; [discriminate H|]); exact H.
  - vm_compute. reflexivity.
  - intros p Hp. vm_compute in Hp.
    destruct Hp as [<-|[<-|[]]]; vm_compute; discriminate.
Defined.

(** * Further properties *)

(** ** The cache and the engine set-up *)
Module SearchExtra.
Import Search.

Lemma str_append_assoc (x y z : string) :
  String.append x (String.append y z) = String.append (String.append x y) z.
Proof. induction x as [|c x IH]; simpl; [reflexivity | rewrite IH; reflexivity]. Qed.

Lemma dict_set_in_keys {A} (d : list (string * A)) (k x : string) (v : A) :
  In x (map fst (dict_set d k v)) <-> In x (map fst d) \/ x = k.
Proof.
  rewrite CacheFacts.dict_set_keys.
  destruct (existsb (String.eqb k) (map fst d)) eqn:E.
  - split; [tauto|]. intros [H| ->]; [exact H|].
    apply (proj1 (py_in_iff k (map fst d))). exact E.
  - rewrite in_app_iff. simpl. split; intros [H|H]; try tauto.
    + destruct H as [H|[]]. right. symmetry. exact H.
    + right. left. symmetry. exact H.
Qed.

(** One iteration of the searcher-building loop of [_setup_searchers]. *)
Definition setup_step (o : SearchOptions) (acc : list (string * unit)) (search : string)
  : list (string * unit) :=
  if String.eqb search "lastfm" then
    (if truthy (lastfm_api_key o) then dict_set acc "lastfm" tt else acc)
  else if String.eqb search "discogs" then
    (if truthy (discogs_api_key o) then dict_set acc "discogs" tt else acc)
  else if String.eqb search "animethemes" then dict_set acc "animethemes" tt
  else acc.

(** Which entries of the order get a searcher. *)
Definition builds (o : SearchOptions) (p : string) : Prop :=
  p = "animethemes" \/ (p = "lastfm" /\ truthy (lastfm_api_key o) = true) \/
  (p = "discogs" /\ truthy (discogs_api_key o) = true).

Lemma setup_searchers_fold (o : SearchOptions) :
  setup_searchers o =
    (fst (setup_searchers o), map fst (fold_left (setup_step o) (fst (setup_searchers o)) [])).
Proof. reflexivity. Qed.

Lemma setup_step_keys (o : SearchOptions) (acc : list (string * unit)) (q p : string) :
  In p (map fst (setup_step o acc q)) <-> In p (map fst acc) \/ (p = q /\ builds o q).
Proof.
  unfold setup_step, builds.
  destruct (String.eqb_spec q "lastfm") as [->|Hl].
  { destruct (truthy (lastfm_api_key o)); rewrite ?dict_set_in_keys; intuition congruence. }
  destruct (String.eqb_spec q "discogs") as [->|Hd].
  { destruct (truthy (discogs_api_key o)); rewrite ?dict_set_in_keys; intuition congruence. }
  destruct (String.eqb_spec q "animethemes") as [->|Ha].
  { rewrite dict_set_in_keys. intuition congruence. }
  intuition congruence.
Qed.

Lemma setup_fold_keys (o : SearchOptions) (order : list string) (acc : list (string * unit)) (p : string) :
  In p (map fst (fold_left (setup_step o) order acc)) <->
  In p (map fst acc) \/ (In p order /\ builds o p).
Proof.
  revert acc. induction order as [|q r IH]; intros acc; simpl.
  - tauto.
  - rewrite IH, setup_step_keys. intuition (subst; auto).
Qed.

Lemma setup_fold_nodup (o : SearchOptions) (order : list string) (acc : list (string * unit)) :
  NoDup (map fst acc) -> NoDup (map fst (fold_left (setup_step o) order acc)).
Proof.
  revert acc. induction order as [|q r IH]; intros acc H; simpl; [exact H|].
  apply IH. unfold setup_step.
  repeat match goal with |- context [if ?b then _ else _] => destruct b end;
    try apply CacheFacts.dict_set_nodup; exact H.
Qed.

End SearchExtra.

Module SearchExtraFacts.
Import Search.

Section Run.
Variables (E : GenreSearch) (fetch : Fetcher) (a t : string) (s : option string).

Lemma step_err (p : string) (st : run_state) (e : exn) :
  Search.step E fetch a t s p st = Err e ->
  e = KeyError /\ ~ In p (searchers E) /\
  get_from_cache (rs_cache st) (key a t s) p = None.
Proof.
  destruct st as [g c f cs ct]. unfold Search.step. simpl.
  destruct (String.eqb p "animethemes" && Nat.ltb 0 (length g)); [discriminate|].
  destruct (get_from_cache c (key a t s) p) eqn:Hc; [discriminate|].
  destruct (py_in p (searchers E)) eqn:Hp; simpl.
  - destruct (fetch (length f) p a t s) as [ | | tg];
      [discriminate | discriminate | destruct (below_threshold _ _) as [[|]|]; discriminate].
  - intros H. inversion H. split; [reflexivity|]. split; [|reflexivity].
    intros Hin. apply py_in_iff in Hin. congruence.
Qed.

Lemma loop_err (order : list string) (st : run_state) (e : exn) :
  Search.loop E fetch a t s order st = Err e ->
  e = KeyError /\ exists p, In p order /\ ~ In p (searchers E) /\
                            get_from_cache (rs_cache st) (key a t s) p = None.
Proof.
  revert st. induction order as [|p r IH]; intros st H; simpl in H; [discriminate|].
  destruct (Search.step E fetch a t s p st) as [sm|e'] eqn:Hs; simpl in H.
  - destruct (IH sm H) as [He [q [Hq [Hn Hc]]]]. split; [exact He|].
    exists q. split; [right; exact Hq|]. split; [exact Hn|].
    destruct (get_from_cache (rs_cache st) (key a t s) q) as [v|] eqn:Hv; [|reflexivity].
    rewrite (proj2 (SearchFacts.step_cache E fetch a t s p q st sm Hs) v Hv) in Hc. discriminate.
  - inversion H; subst e'. destruct (step_err p st e Hs) as [He [Hn Hc]].
    split; [exact He|]. exists p. split; [left; reflexivity|]. split; assumption.
Qed.

(** What an iteration does to the log of fetched providers. *)
Lemma step_fetched (p : string) (st st' : run_state) :
  Search.step E fetch a t s p st = Ok st' ->
  rs_fetched st' = rs_fetched st \/
  (rs_fetched st' = rs_fetched st ++ [p] /\ In p (searchers E) /\
   get_from_cache (rs_cache st) (key a t s) p = None).
Proof.
  destruct st as [g c f cs ct]. unfold Search.step. simpl.
  destruct (String.eqb p "animethemes" && Nat.ltb 0 (length g)).
  { intros H. inversion H. left. reflexivity. }
  destruct (get_from_cache c (key a t s) p) eqn:Hc.
  { intros H. inversion H. left. reflexivity. }
  destruct (py_in p (searchers E)) eqn:Hp; simpl; [|discriminate].
  apply py_in_iff in Hp.
  destruct (fetch (length f) p a t s) as [ | | tg];
    [ | | destruct (below_threshold _ _) as [[|]|]];
    intros H; inversion H; right; repeat split; assumption.
Qed.

Lemma loop_fetched (order : list string) (st st' : run_state) :
  Search.loop E fetch a t s order st = Ok st' ->
  length (rs_fetched st') <= length (rs_fetched st) + length order /\
  (forall p, In p (rs_fetched st') -> In p (rs_fetched st) \/
     (In p order /\ In p (searchers E) /\ get_from_cache (rs_cache st) (key a t s) p = None)).
Proof.
  revert st. induction order as [|q r IH]; intros st H; simpl in H.
  - inversion H; subst. simpl. split; [lia | tauto].
  - destruct (Search.step E fetch a t s q st) as [sm|e] eqn:Hs; simpl in H; [|discriminate].
    destruct (IH sm H) as [Hlen Hin].
    assert (Hkeep : forall p, get_from_cache (rs_cache sm) (key a t s) p = None ->
                              get_from_cache (rs_cache st) (key a t s) p = None).
    { intros p Hp. destruct (get_from_cache (rs_cache st) (key a t s) p) as [v|] eqn:Hv; [|reflexivity].
      rewrite (proj2 (SearchFacts.step_cache E fetch a t s q p st sm Hs) v Hv) in Hp. discriminate. }
    destruct (step_fetched q st sm Hs) as [Hf|[Hf [Hq Hc]]]; rewrite Hf in Hlen, Hin;
      rewrite ?length_app in Hlen; simpl in Hlen |- *; (split; [lia|]);
      intros p Hp; destruct (Hin p Hp) as [H1|[H1 [H2 H3]]].
    + left. exact H1.
    + right. split; [right; exact H1|]. split; [exact H2 | exact (Hkeep p H3)].
    + apply in_app_or in H1 as [H1|[<-|[]]]; [left; exact H1|].
      right. split; [left; reflexivity|]. split; assumption.
    + right. split; [right; exact H1|]. split; [exact H2 | exact (Hkeep p H3)].
Qed.

End Run.
End SearchExtraFacts.

Module CacheOnlyFacts.
Import Search.

Section Run.
Variables (E : GenreSearch) (fetch : Fetcher) (a t : string) (s : option string).
Variable c0 : Cache.

(** Every entry for the query key is either empty or one of [c0]'s, and
    so is every contribution. *)
Definition from_c0 (st : run_state) : Prop :=
  (forall q v, get_from_cache (rs_cache st) (key a t s) q = Some v ->
               v = [] \/ get_from_cache c0 (key a t s) q = Some v) /\
  (forall q qs, In (q, qs) (rs_contribs st) ->
                qs = [] \/ get_from_cache c0 (key a t s) q = Some qs).

Lemma step_from_c0 (e : exn) (p : string) (st st' : run_state) :
  thr_attr E = Err e ->
  Search.step E fetch a t s p st = Ok st' -> from_c0 st -> from_c0 st'.
Proof.
  intros Hthr Hs [Hc Hct]. destruct st as [g c f cs ct]. simpl in Hc, Hct.
  apply SearchFacts.step_cases in Hs.
  destruct Hs as [[-> _]|[_ [[cg [Hget ->]]|[_ [->|[[_ ->]|[tg [rg [_ [Hb ->]]]]]]]]]].
  - split; assumption.
  - split; [exact Hc|]. simpl. intros q qs Hin.
    apply in_app_or in Hin as [Hin|[Heq|[]]]; [exact (Hct q qs Hin)|].
    inversion Heq; subst. exact (Hc q qs Hget).
  - split; assumption.
  - split; [|exact Hct]. simpl. intros q v Hv.
    rewrite SearchFacts.get_add_to_cache in Hv.
    destruct (String.eqb p q); [inversion Hv; left; reflexivity | exact (Hc q v Hv)].
  - rewrite Hthr in Hb. discriminate.
Qed.

Lemma loop_from_c0 (e : exn) (order : list string) (st st' : run_state) :
  thr_attr E = Err e ->
  Search.loop E fetch a t s order st = Ok st' -> from_c0 st -> from_c0 st'.
Proof.
  intros Hthr. revert st. induction order as [|p r IH]; intros st H Hi; simpl in H.
  - inversion H; subst. exact Hi.
  - destruct (Search.step E fetch a t s p st) as [sm|e'] eqn:Hs; simpl in H; [|discriminate].
    exact (IH sm H (step_from_c0 e p st sm Hthr Hs Hi)).
Qed.

End Run.

Section NoneAnswer.
Variables (E : GenreSearch) (fetch : Fetcher) (a t : string) (s : option string).
Variable p : string.
Hypothesis none_answer : forall i, fetch i p a t s = FetchNone.

(** Before [p] is consulted its entry is absent; afterwards it is the
    empty list. *)
Definition none_inv (st : run_state) : Prop :=
  (get_from_cache (rs_cache st) (key a t s) p = None /\ ~ In p (rs_consulted st)) \/
  get_from_cache (rs_cache st) (key a t s) p = Some [].

Lemma step_none_inv (q : string) (st st' : run_state) :
  Search.step E fetch a t s q st = Ok st' -> none_inv st -> none_inv st'.
Proof.
  intros Hs Hi. destruct (String.eqb_spec q p) as [ -> | Hne].
  - destruct st as [g c f cs ct]. unfold none_inv in *. simpl in Hi.
    revert Hs. unfold Search.step.
    destruct (String.eqb p "animethemes" && Nat.ltb 0 (length g)).
    { intros H. inversion H; subst. exact Hi. }
    destruct (get_from_cache c (key a t s) p) as [v|] eqn:Hc.
    { intros H. inversion H; subst. simpl. right.
      destruct Hi as [[Hn _]|Hv]; congruence. }
    destruct (negb (py_in p (searchers E))); [discriminate|].
    rewrite none_answer. intros H. inversion H; subst. simpl. right.
    rewrite SearchFacts.get_add_to_cache, String.eqb_refl. reflexivity.
  - assert (Hc : get_from_cache (rs_cache st') (key a t s) p =
                 get_from_cache (rs_cache st) (key a t s) p)
      by exact (proj1 (SearchFacts.step_cache E fetch a t s q p st st' Hs) Hne).
    unfold none_inv. rewrite Hc. destruct Hi as [[Hn Hcs]|Hv]; [left | right; exact Hv].
    split; [exact Hn|]. intros Hin. apply Hcs.
    destruct st as [g c f cs ct]. simpl in Hin |- *.
    apply SearchFacts.step_cases in Hs.
    destruct Hs as [[-> _]|[_ [[cg [_ ->]]|[_ [->|[[_ ->]|[tg [rg [_ [_ ->]]]]]]]]]];
      simpl in Hin; try exact Hin;
      (apply in_app_or in Hin as [Hin|[Hin|[]]]; [exact Hin | congruence]).
Qed.

Lemma loop_none_inv (order : list string) (st st' : run_state) :
  Search.loop E fetch a t s order st = Ok st' -> none_inv st -> none_inv st'.
Proof.
  revert st. induction order as [|q r IH]; intros st H Hi; simpl in H.
  - inversion H; subst. exact Hi.
  - destruct (Search.step E fetch a t s q st) as [sm|e] eqn:Hs; simpl in H; [|discriminate].
    exact (IH sm H (step_none_inv q st sm Hs Hi)).
Qed.

End NoneAnswer.
End CacheOnlyFacts.

(** Writing [(k, q)] into the cache changes the lookup of that pair
    only: every other key and every other provider of [k] reads as
    before. *)
Theorem add_to_cache_lookup (c : Search.Cache) (k : string) (gs : list GenrePath)
    (q k' p : string) :
  Search.get_from_cache (Search.add_to_cache c k gs q) k' p =
    if String.eqb k k' && String.eqb q p then Some gs
    else Search.get_from_cache c k' p.
Proof.
  unfold Search.get_from_cache, Search.add_to_cache. rewrite SearchFacts.dict_get_set.
  destruct (String.eqb_spec k k') as [ -> | Hne]; simpl.
  - rewrite SearchFacts.dict_get_set. destruct (dict_get c k'); reflexivity.
  - reflexivity.
Qed.

(** The cache key joins the three fields with ["|"] and no escaping: a
    ["|"] moved from the artist into the title gives the same key, and
    a missing subtitle shares the key of an empty one. *)
Theorem cache_key_collisions (x y z : string) (s : option string) :
  Search.cache_key (x ++ "|" ++ y) z s = Search.cache_key x (y ++ "|" ++ z) s /\
  Search.cache_key x y None = Search.cache_key x y (Some "").
Proof.
  split; [|reflexivity]. unfold Search.cache_key.
  rewrite <- !SearchExtra.str_append_assoc. reflexivity.
Qed.

(** [_setup_searchers]: the order is [api_search_order] when it is a
    non-empty list and ["lastfm"; "discogs"] otherwise; a searcher is
    built, once, exactly for the entries of the order that are
    "animethemes", or "lastfm" / "discogs" with a non-empty key. *)
Theorem setup_searchers_spec (o : SearchOptions) :
  (forall l, api_search_order o = Some l -> l <> [] -> fst (Search.setup_searchers o) = l) /\
  ((api_search_order o = None \/ api_search_order o = Some []) ->
     fst (Search.setup_searchers o) = ["lastfm"; "discogs"]) /\
  NoDup (snd (Search.setup_searchers o)) /\
  (forall p, In p (snd (Search.setup_searchers o)) <->
             In p (fst (Search.setup_searchers o)) /\ SearchExtra.builds o p).
Proof.
  split; [|split; [|split]].
  - intros l Hl Hne. unfold Search.setup_searchers. rewrite Hl.
    destruct l; [congruence | reflexivity].
  - intros [H|H]; unfold Search.setup_searchers; rewrite H; reflexivity.
  - rewrite SearchExtra.setup_searchers_fold. simpl.
    apply SearchExtra.setup_fold_nodup. constructor.
  - intros p. rewrite SearchExtra.setup_searchers_fold. simpl.
    rewrite SearchExtra.setup_fold_keys. simpl. tauto.
Qed.


Definition lastfm_first_options : SearchOptions :=
  mkSearchOptions None (Some "d-key") (Some ["lastfm"; "discogs"]) None.


(** Provider failures are swallowed: the only exception [get_genres]
    lets out is the [KeyError] of a provider in the search order with
    no searcher and no cache entry for the query. *)
Theorem get_genres_raises_only_key_error (E : Search.GenreSearch) (fetch : Search.Fetcher)
    (a t : string) (s : option string) (e : exn) :
  Search.get_genres E fetch a t s = Err e ->
  e = KeyError /\ exists p, In p (Search.search_order E) /\ ~ In p (Search.searchers E) /\
    Search.get_from_cache (Search.cache E) (Search.key a t s) p = None.
Proof. apply SearchExtraFacts.loop_err. Qed.

Lemma get_genres_raises_only_key_error_witness :
  KeyError = KeyError /\ exists p, In p ["lastfm"; "discogs"] /\ ~ In p ["discogs"] /\
    Search.get_from_cache [] (Search.key "A" "T" None) p = None.
Proof.
  apply (get_genres_raises_only_key_error (Search.init lastfm_first_options [])
           (fun _ _ _ _ _ => Search.FetchNone) "A" "T" None KeyError).
  vm_compute. reflexivity.
Defined.

(** [get_genres] contacts a provider only when it is in the search order,
    has a searcher and has no cache entry for the query at the start of
    the call, and makes at most one call per entry of the order. *)
Theorem get_genres_fetch_discipline (E : Search.GenreSearch) (fetch : Search.Fetcher)
    (a t : string) (s : option string) (st' : Search.run_state) :
  Search.get_genres E fetch a t s = Ok st' ->
  length (Search.rs_fetched st') <= length (Search.search_order E) /\
  (forall p, In p (Search.rs_fetched st') ->
     In p (Search.search_order E) /\ In p (Search.searchers E) /\
     Search.get_from_cache (Search.cache E) (Search.key a t s) p = None).
Proof.
  intros H. destruct (SearchExtraFacts.loop_fetched E fetch a t s _ _ _ H) as [Hl Hin].
  simpl in Hl. split; [exact Hl|]. intros p Hp. destruct (Hin p Hp) as [[]|Hp']. exact Hp'.
Qed.

Lemma get_genres_fetch_discipline_witness :
  exists st', Search.get_genres thr_engine warm_fetch "A" "T" None = Ok st' /\
  (length (Search.rs_fetched st') <= length (Search.search_order thr_engine) /\
   (forall p, In p (Search.rs_fetched st') ->
      In p (Search.search_order thr_engine) /\ In p (Search.searchers thr_engine) /\
      Search.get_from_cache (Search.cache thr_engine) (Search.key "A" "T" None) p = None)).
Proof.
  eexists. split; [vm_compute; reflexivity|].
  apply (get_genres_fetch_discipline thr_engine warm_fetch "A" "T" None).
  vm_compute. reflexivity.
Defined.

(** A provider that answers [None] gets an empty entry for the query as
    soon as it is consulted, so a later call finds it cached. *)
Theorem none_answer_cached_empty (E : Search.GenreSearch) (fetch : Search.Fetcher)
    (a t : string) (s : option string) (p : string) (st' : Search.run_state) :
  (forall i, fetch i p a t s = Search.FetchNone) ->
  Search.get_from_cache (Search.cache E) (Search.key a t s) p = None ->
  Search.get_genres E fetch a t s = Ok st' ->
  In p (Search.rs_consulted st') ->
  Search.get_from_cache (Search.rs_cache st') (Search.key a t s) p = Some [].
Proof.
  intros Hn Hc H Hp.
  destruct (CacheOnlyFacts.loop_none_inv E fetch a t s p Hn _ _ _ H) as [[_ Hnot]|Hv].
  - left. split; [exact Hc | intros []].
  - exfalso. exact (Hnot Hp).
  - exact Hv.
Qed.

Lemma none_answer_cached_empty_witness :
  exists st', Search.get_genres thr_engine warm_fetch "A" "T" None = Ok st' /\
  Search.get_from_cache (Search.rs_cache st') (Search.key "A" "T" None) "discogs" = Some [].
Proof.
  eexists. split; [vm_compute; reflexivity|].
  apply (none_answer_cached_empty thr_engine warm_fetch "A" "T" None "discogs").
  - intros i. reflexivity.
  - reflexivity.
  - vm_compute. reflexivity.
  - vm_compute. right. left. reflexivity.
Defined.

(** With [SearchOptions] as declared, reading the threshold raises
    inside the [try], so no provider match is ever kept: everything a
    [get_genres] call on [GenreSearch(options)] returns comes from the
    cache it was loaded with, or is an empty entry. *)
Theorem declared_options_only_cached (o : SearchOptions) (loaded : Search.Cache)
    (fetch : Search.Fetcher) (a t : string) (s : option string) (st' : Search.run_state) :
  Search.get_genres (Search.init o loaded) fetch a t s = Ok st' ->
  Search.rs_genres st' = concat (map snd (Search.rs_contribs st')) /\
  (forall q qs, In (q, qs) (Search.rs_contribs st') ->
     qs = [] \/ Search.get_from_cache loaded (Search.key a t s) q = Some qs).
Proof.
  intros H. split; [exact (SearchFacts.loop_inv _ fetch a t s _ _ _ H eq_refl)|].
  assert (Hthr : Search.thr_attr (Search.init o loaded) = Err AttributeError)
    by (unfold Search.init; destruct (Search.setup_searchers o); reflexivity).
  assert (Hc : Search.cache (Search.init o loaded) = loaded)
    by (unfold Search.init; destruct (Search.setup_searchers o); reflexivity).
  assert (H0 : CacheOnlyFacts.from_c0 a t s loaded (Search.mkRun [] (Search.cache (Search.init o loaded)) [] [] [])).
  { rewrite Hc. split; simpl; [intros q v Hv; right; exact Hv | intros q qs []]. }
  exact (proj2 (CacheOnlyFacts.loop_from_c0 _ fetch a t s loaded AttributeError _ _ _ Hthr H H0)).
Qed.

Definition cached_options : SearchOptions :=
  mkSearchOptions (Some "l-key") None (Some ["lastfm"]) None.

Definition cached_entry : Search.Cache :=
  [("A|T|", [("lastfm", [[mkGenreTag "Rock" 1]])])].

Lemma declared_options_only_cached_witness :
  exists st', Search.get_genres (Search.init cached_options cached_entry) thr_fetch "A" "T" None = Ok st' /\
  (Search.rs_genres st' = concat (map snd (Search.rs_contribs st')) /\
   (forall q qs, In (q, qs) (Search.rs_contribs st') ->
      qs = [] \/ Search.get_from_cache cached_entry (Search.key "A" "T" None) q = Some qs)).
Proof.
  eexists. split; [vm_compute; reflexivity|].
  apply (declared_options_only_cached cached_options cached_entry thr_fetch "A" "T" None).
  vm_compute. reflexivity.
Defined.

(** ** The picker, the source reordering and the cache file *)
Module PickExtra.
Import GenrePick.

Lemma py_remove_incl (x : string) (xs r : list string) :
  py_remove x xs = Ok r -> incl r xs.
Proof.
  revert r. induction xs as [|y ys IH]; intros r H; simpl in H; [discriminate|].
  destruct (String.eqb x y).
  - inversion H; subst. intros z Hz. right. exact Hz.
  - destruct (py_remove x ys) as [r'|e] eqn:Hr; simpl in H; [|discriminate].
    inversion H; subst. intros z [<-|Hz]; [left; reflexivity | right; exact (IH r' eq_refl z Hz)].
Qed.

Lemma py_neg_index_in {A} (xs : list A) (i : nat) (x : A) :
  py_neg_index xs i = Ok x -> In x xs.
Proof.
  unfold py_neg_index. destruct (Nat.ltb (length xs) i); [discriminate|].
  destruct (nth_error xs (length xs - i)) eqn:Hn; [|discriminate].
  intros H. inversion H; subst. exact (nth_error_In _ _ Hn).
Qed.

Lemma first_in_in (regs g : list string) (x : string) : first_in regs g = Some x -> In x g.
Proof.
  induction regs as [|r rs IH]; simpl; [discriminate|].
  destruct (py_in r g) eqn:E; [|exact IH].
  intros H. inversion H; subst. apply py_in_iff. exact E.
Qed.

Lemma pop_loop_in (gs : list (list string)) (x : string) :
  pop_loop gs = Some x -> exists p, In p gs /\ In x p.
Proof.
  induction gs as [|g r IH]; simpl; [discriminate|].
  destruct (truthy (get_regional_pop g)) eqn:Hr.
  { intros H. exists g. split; [left; reflexivity|]. exact (first_in_in _ _ _ H). }
  destruct (truthy (get_pop g)) eqn:Hp.
  { unfold get_pop. destruct (py_in "Pop" g) eqn:E; [|discriminate].
    intros H. inversion H; subst. exists g. split; [left; reflexivity|].
    apply py_in_iff. exact E. }
  intros H. destruct (IH H) as [p [Hp' Hx]]. exists p. split; [right; exact Hp' | exact Hx].
Qed.

(** [get_dance_genre] never raises. *)
Lemma get_dance_genre_ok (g : list string) : exists d, get_dance_genre g = Ok d.
Proof.
  unfold get_dance_genre. destruct (py_in "Dance" g) eqn:Hd; [|eexists; reflexivity].
  apply py_in_iff in Hd.
  set (g' := if py_in "Uk Garage" g then PickFacts.remove_first "Uk Garage" g else g).
  assert (Hin : In "Dance" g').
  { unfold g'. destruct (py_in "Uk Garage" g); [|exact Hd].
    apply PickFacts.remove_first_keeps; [discriminate | exact Hd]. }
  replace (if py_in "Uk Garage" g then py_remove "Uk Garage" g else Ok g) with (Ok g' : result (list string)).
  2:{ unfold g'. destruct (py_in "Uk Garage" g) eqn:E; [|reflexivity].
      rewrite PickFacts.py_remove_in by (apply py_in_iff; exact E). reflexivity. }
  simpl. unfold py_neg_index.
  assert (Hlen : 1 <= length g') by (destruct g'; [destruct Hin | simpl; lia]).
  destruct (Nat.ltb_spec 1 (length g')).
  - destruct (Nat.ltb_spec (length g') 2); [lia|].
    destruct (nth_error g' (length g' - 2)) eqn:Hn; [eexists; reflexivity|].
    apply nth_error_None in Hn. lia.
  - destruct (Nat.ltb_spec (length g') 1); [lia|].
    destruct (nth_error g' (length g' - 1)) eqn:Hn; [eexists; reflexivity|].
    apply nth_error_None in Hn. lia.
Qed.

Lemma get_dance_genre_in (g : list string) (x : string) :
  get_dance_genre g = Ok (Some x) -> In x g.
Proof.
  unfold get_dance_genre. destruct (py_in "Dance" g); [|discriminate].
  destruct (if py_in "Uk Garage" g then py_remove "Uk Garage" g else Ok g) as [g'|e] eqn:Hg;
    simpl; [|discriminate].
  assert (Hincl : incl g' g).
  { destruct (py_in "Uk Garage" g).
    - exact (py_remove_incl _ _ _ Hg).
    - inversion Hg; subst. apply incl_refl. }
  destruct (Nat.ltb 1 (length g'));
    destruct (py_neg_index g' _) as [y|e] eqn:Hy; simpl; try discriminate;
    intros H; inversion H; subst; exact (Hincl _ (py_neg_index_in _ _ _ Hy)).
Qed.

Lemma dance_loop_ok (gs : list (list string)) : exists d, dance_loop gs = Ok d.
Proof.
  induction gs as [|g r IH]; simpl; [eexists; reflexivity|].
  destruct (get_dance_genre_ok g) as [d Hd]. rewrite Hd. simpl.
  destruct (truthy d); [eexists; reflexivity | exact IH].
Qed.

Lemma dance_loop_in (gs : list (list string)) (x : string) :
  dance_loop gs = Ok (Some x) -> exists p, In p gs /\ In x p.
Proof.
  induction gs as [|g r IH]; simpl; [discriminate|].
  destruct (get_dance_genre g) as [d|e] eqn:Hd; simpl; [|discriminate].
  destruct (truthy d).
  - intros H. inversion H; subst. exists g. split; [left; reflexivity|].
    exact (get_dance_genre_in _ _ Hd).
  - intros H. destruct (IH H) as [p [Hp Hx]]. exists p. split; [right; exact Hp | exact Hx].
Qed.

Lemma max_len_from_in {A} (b : list A) (xs : list (list A)) : In (max_len_from b xs) (b :: xs).
Proof.
  revert b. induction xs as [|x r IH]; intros b; simpl; [left; reflexivity|].
  destruct (Nat.ltb (length b) (length x)).
  - destruct (IH x) as [H|H]; [right; left; exact H | right; right; exact H].
  - destruct (IH b) as [H|H]; [left; exact H | right; right; exact H].
Qed.

Lemma max_len_from_nil {A} (b : list A) (xs : list (list A)) :
  max_len_from b xs = [] <-> b = [] /\ Forall (fun p => p = []) xs.
Proof.
  revert b. induction xs as [|x r IH]; intros b; simpl.
  - split; [intros ->; split; [reflexivity | constructor] | intros [-> _]; reflexivity].
  - destruct (Nat.ltb_spec (length b) (length x)) as [Hl|Hl].
    + rewrite IH. split.
      * intros [-> _]. simpl in Hl. lia.
      * intros [-> Hf]. inversion Hf; subst. simpl in Hl. lia.
    + rewrite IH. split.
      * intros [-> Hf]. split; [reflexivity|]. constructor; [|exact Hf].
        destruct x; [reflexivity | simpl in Hl; lia].
      * intros [-> Hf]. inversion Hf; subst. split; [reflexivity | assumption].
Qed.

End PickExtra.

(** [pick_genre] raises exactly in two cases: [ValueError] from [max] on
    an empty list of candidates, and [IndexError] from [[0]] when every
    candidate path is empty. *)
Theorem pick_genre_errors (gs : list (list string)) (e : exn) :
  GenrePick.pick_genre gs = Err e <->
  (gs = [] /\ e = ValueError) \/
  (gs <> [] /\ Forall (fun p => p = []) gs /\ e = IndexError).
Proof.
  unfold GenrePick.pick_genre. split.
  - destruct (GenrePick.pop_loop gs) as [x|]; [discriminate|].
    destruct (PickExtra.dance_loop_ok gs) as [d Hd]. rewrite Hd. simpl.
    destruct d as [x|]; [discriminate|].
    destruct gs as [|g r]; simpl.
    + intros H. inversion H. left. split; reflexivity.
    + destruct (max_len_from g r) as [|y ys] eqn:Hm; simpl; [|discriminate].
      intros H. inversion H; subst. right. split; [discriminate|].
      apply PickExtra.max_len_from_nil in Hm as [-> Hf]. split; [constructor; [reflexivity | exact Hf] | reflexivity].
  - intros [[-> ->]|[Hne [Hf ->]]]; [reflexivity|].
    assert (Hin : forall p, In p gs -> p = []) by (rewrite <- Forall_forall; exact Hf).
    rewrite PickFacts.pop_loop_none.
    2:{ intros p Hp. rewrite (Hin p Hp). split; [intros r _ [] | intros []]. }
    rewrite PickFacts.dance_loop_none by (intros p Hp; rewrite (Hin p Hp); intros []).
    destruct gs as [|g r]; [congruence|]. simpl.
    inversion Hf; subst.
    rewrite (proj2 (PickExtra.max_len_from_nil [] r)) by (split; [reflexivity | assumption]).
    reflexivity.
Qed.

(** Whatever [pick_genre] returns is a tag of one of the candidate
    paths. *)
Theorem pick_genre_result_in_input (gs : list (list string)) (x : string) :
  GenrePick.pick_genre gs = Ok x -> exists p, In p gs /\ In x p.
Proof.
  unfold GenrePick.pick_genre.
  destruct (GenrePick.pop_loop gs) as [y|] eqn:Hp.
  { intros H. inversion H; subst. exact (PickExtra.pop_loop_in _ _ Hp). }
  destruct (GenrePick.dance_loop gs) as [[y|]|e] eqn:Hd; simpl; [| |discriminate].
  { intros H. inversion H; subst. exact (PickExtra.dance_loop_in _ _ Hd). }
  destruct gs as [|g r]; simpl; [discriminate|].
  destruct (max_len_from g r) as [|y ys] eqn:Hm; simpl; [discriminate|].
  intros H. inversion H; subst. exists (x :: ys). split; [|left; reflexivity].
  rewrite <- Hm. apply PickExtra.max_len_from_in.
Qed.

Lemma pick_genre_result_in_input_witness :
  exists p, In p [["Rock"]; ["Electronic"; "Dance"; "House"]] /\ In "Dance" p.
Proof.
  apply (pick_genre_result_in_input [["Rock"]; ["Electronic"; "Dance"; "House"]] "Dance").
  vm_compute. reflexivity.
Defined.

Module MoveExtra.

Lemma remove_first_perm (x : string) (l : list string) :
  In x l -> Permutation l (x :: PickFacts.remove_first x l).
Proof.
  induction l as [|y ys IH]; simpl; [intros []|].
  destruct (String.eqb_spec x y) as [ -> | Hne]; [intros _; reflexivity|].
  intros [->|H]; [congruence|].
  transitivity (y :: x :: PickFacts.remove_first x ys); [constructor; exact (IH H)|].
  apply perm_swap.
Qed.

Lemma remove_first_filter (f : string -> bool) (x : string) (l : list string) :
  f x = false -> filter f (PickFacts.remove_first x l) = filter f l.
Proof.
  intros Hx. induction l as [|y ys IH]; simpl; [reflexivity|].
  destruct (String.eqb_spec x y) as [<-|Hne]; simpl.
  - rewrite Hx. reflexivity.
  - rewrite IH. reflexivity.
Qed.

End MoveExtra.

(** The reordering of [GenreSearchThread.__init__] never raises and
    only moves entries: the result is a permutation of the configured
    sources, the other sources keep their relative order, and when
    "animethemes" is configured it ends the list. *)
Theorem move_animethemes_last_permutes (L : list string) :
  exists L', Thread.move_animethemes_last L = Ok L' /\ Permutation L L' /\
    filter (fun x => negb (String.eqb x "animethemes")) L' =
      filter (fun x => negb (String.eqb x "animethemes")) L /\
    (In "animethemes" L -> last L' "" = "animethemes").
Proof.
  rewrite move_animethemes_last_ok. eexists. split; [reflexivity|].
  destruct (py_in "animethemes" L) eqn:E.
  - apply py_in_iff in E. split; [|split].
    + eapply perm_trans; [exact (MoveExtra.remove_first_perm _ _ E)|].
      apply Permutation_cons_append.
    + rewrite filter_app. simpl. rewrite app_nil_r.
      apply MoveExtra.remove_first_filter. reflexivity.
    + intros _. apply last_last.
  - split; [reflexivity|]. split; [reflexivity|].
    intros H. apply py_in_iff in H. congruence.
Qed.

(** Reading back a cache file: [_load_cache] on the document
    [_save_cache] wrote gives the same cache, when its keys are distinct
    at both levels (as the keys of a Python dict are). *)
Theorem cache_load_save (c : Search.Cache) :
  NoDup (map fst c) -> Forall (fun kv => NoDup (map fst (snd kv))) c ->
  CacheFile.load (CacheFile.save c) = Ok c.
Proof.
  intros Hk Hv. unfold CacheFile.save, CacheFile.load.
  rewrite CacheFacts.cache_as_dicts_eq, (CacheFacts.dict_build_id c Hk).
  rewrite (CacheFacts.mapM_vals CacheFile.load_obj CacheFacts.obj_json CacheFile.dict_build)
    by apply CacheFacts.load_obj_json.
  simpl. rewrite CacheFacts.dict_build_id by (rewrite CacheFacts.map_vals_keys; exact Hk).
  f_equal. unfold CacheFacts.map_vals. transitivity (map (fun kv => kv) c); [|apply map_id].
  apply map_ext_in. intros [k o] Hin. simpl.
  rewrite Forall_forall in Hv. rewrite CacheFacts.dict_build_id; [reflexivity|].
  exact (Hv _ Hin).
Qed.

Lemma cache_load_save_witness : CacheFile.load (CacheFile.save cached_entry) = Ok cached_entry.
Proof.
  apply cache_load_save.
  - repeat constructor. intros [].
  - repeat constructor. intros [].
Defined.

(** ** Audio tags *)
Module AudioExtra.
Import Audio.

Abbreviation chars := list_ascii_of_string.











End AudioExtra.



(** ** The genre dialog: initial selection and drop-down *)
Module SelectExtra.
Import Tree.

Definition sel_inv (st : sel_state) (seen : list GenreTag) : Prop :=
  let '(b, bs, bd) := st in
  (b = None /\ bs = 0%Q /\ bd = 0 /\
   forall x, In x seen -> name x <> "Dance" -> (score x < 0)%Q) \/
  (exists g, b = Some g /\ In g seen /\ name g <> "Dance" /\ score g = bs /\ (0 <= bs)%Q /\
   forall x, In x seen -> name x <> "Dance" -> (score x <= bs)%Q).

Lemma sel_inv_more (st : sel_state) (seen more : list GenreTag) :
  (forall x, In x more -> name x = "Dance") -> sel_inv st seen -> sel_inv st (seen ++ more).
Proof.
  intros Hm. destruct st as [[b bs] bd]. simpl.
  intros [[-> [-> [-> H]]]|[g [-> [Hg [Hn [Hs [H0 H]]]]]]].
  - left. repeat split. intros x Hx Hnx. apply in_app_or in Hx as [Hx|Hx];
      [exact (H x Hx Hnx) | exfalso; exact (Hnx (Hm x Hx))].
  - right. exists g. repeat split; try assumption.
    + apply in_or_app. left. exact Hg.
    + intros x Hx Hnx. apply in_app_or in Hx as [Hx|Hx];
        [exact (H x Hx Hnx) | exfalso; exact (Hnx (Hm x Hx))].
Qed.

Lemma sel_selected (g : GenreTag) (bs : Q) (b : option GenreTag) (bd d' : nat) (seen : list GenreTag) :
  name g <> "Dance" -> (bs <= score g)%Q -> sel_inv (b, bs, bd) seen ->
  sel_inv (Some g, score g, d') (seen ++ [g]).
Proof.
  intros Hd Hle Hi. right. exists g.
  assert (Hall : forall x, In x seen -> name x <> "Dance" -> (score x <= bs)%Q /\ (0 <= bs)%Q).
  { destruct Hi as [[_ [-> [_ H]]]|[g' [_ [_ [_ [_ [H0 H]]]]]]]; intros x Hx Hnx.
    - specialize (H x Hx Hnx). split; lra.
    - split; [exact (H x Hx Hnx) | exact H0]. }
  assert (H0 : (0 <= bs)%Q).
  { destruct Hi as [[_ [-> _]]|[g' [_ [_ [_ [_ [H0 _]]]]]]]; [lra | exact H0]. }
  split; [reflexivity|]. split; [apply in_or_app; right; left; reflexivity|].
  split; [exact Hd|]. split; [reflexivity|]. split; [lra|].
  intros x Hx Hnx. apply in_app_or in Hx as [Hx|[<-|[]]].
  - destruct (Hall x Hx Hnx) as [H1 _]. lra.
  - lra.
Qed.

Lemma sel_kept (g : GenreTag) (bs : Q) (b : option GenreTag) (bd : nat) (seen : list GenreTag) :
  (score g <= bs)%Q -> (b = None -> (score g < 0)%Q) -> sel_inv (b, bs, bd) seen ->
  sel_inv (b, bs, bd) (seen ++ [g]).
Proof.
  intros Hle Hneg Hi.
  destruct Hi as [[-> [-> [-> H]]]|[g' [-> [Hg [Hn [Hs [H0 H]]]]]]].
  - left. repeat split. intros x Hx Hnx. apply in_app_or in Hx as [Hx|[<-|[]]].
    + exact (H x Hx Hnx).
    + exact (Hneg eq_refl).
  - right. exists g'. split; [reflexivity|]. split; [apply in_or_app; left; exact Hg|].
    repeat split; try assumption.
    intros x Hx Hnx. apply in_app_or in Hx as [Hx|[<-|[]]]; [exact (H x Hx Hnx) | exact Hle].
Qed.

Lemma sel_group_inv (grp : list GenreTag) (depth : nat) (st : sel_state) (seen : list GenreTag) :
  sel_inv st seen -> sel_inv (sel_group grp depth st) (seen ++ grp).
Proof.
  revert depth st seen. induction grp as [|g r IH]; intros depth st seen Hi; simpl.
  { rewrite app_nil_r. exact Hi. }
  replace (seen ++ g :: r) with ((seen ++ [g]) ++ r) by (rewrite <- app_assoc; reflexivity).
  destruct (String.eqb_spec (name g) "Dance") as [Hd|Hd].
  { apply IH. apply sel_inv_more; [intros x [<-|[]]; exact Hd | exact Hi]. }
  destruct st as [[b bs] bd].
  destruct (Qle_bool (score g) bs) eqn:H1; destruct (Qeq_bool (score g) bs) eqn:H2;
    [destruct (Nat.leb bd (S depth)) eqn:H3 | | | ]; simpl; apply IH.
  - apply Qeq_bool_iff in H2. apply (sel_selected g bs b bd); [exact Hd | lra | exact Hi].
  - apply Qle_bool_iff in H1. apply sel_kept; [exact H1 | | exact Hi].
    intros ->. destruct Hi as [[_ [_ [-> _]]]|[g' [Hb _]]]; [simpl in H3; discriminate | discriminate].
  - apply Qle_bool_iff in H1. apply sel_kept; [exact H1 | | exact Hi].
    intros ->. destruct Hi as [[_ [-> _]]|[g' [Hb _]]]; [|discriminate].
    destruct (proj1 (Qle_lteq (score g) 0) H1) as [Hlt|Heq]; [exact Hlt|].
    apply Qeq_bool_iff in Heq. congruence.
  - exfalso. apply Qeq_bool_iff in H2.
    assert (Hle : (score g <= bs)%Q) by lra. apply Qle_bool_iff in Hle. congruence.
  - assert (Hlt : (bs < score g)%Q).
    { apply Qnot_le_lt. intros Hle. apply Qle_bool_iff in Hle. congruence. }
    apply (sel_selected g bs b bd); [exact Hd | lra | exact Hi].
Qed.

Lemma selection_fold_inv (genres : list GenrePath) (st : sel_state) (seen : list GenreTag) :
  sel_inv st seen ->
  sel_inv (fold_left (fun st group => sel_group (rev group) 0 st) genres st)
          (seen ++ concat (map (@rev GenreTag) genres)).
Proof.
  revert st seen. induction genres as [|grp r IH]; intros st seen Hi; simpl.
  - rewrite app_nil_r. exact Hi.
  - rewrite app_assoc. apply IH. apply sel_group_inv. exact Hi.
Qed.

Lemma in_concat_rev (x : GenreTag) (genres : list GenrePath) :
  In x (concat (map (@rev GenreTag) genres)) <-> In x (concat genres).
Proof.
  rewrite !in_concat. split.
  - intros [l [Hl Hx]]. apply in_map_iff in Hl as [l' [<- Hl']].
    exists l'. split; [exact Hl' | apply in_rev; exact Hx].
  - intros [l [Hl Hx]]. exists (rev l). split; [apply in_map; exact Hl | apply in_rev in Hx; exact Hx].
Qed.

Lemma selection_inv (genres : list GenrePath) :
  let '(b, bs, _) := fold_left (fun st group => sel_group (rev group) 0 st) genres (None, 0%Q, 0) in
  (b = None /\ forall x, In x (concat genres) -> name x <> "Dance" -> (score x < 0)%Q) \/
  (exists g, b = Some g /\ In g (concat genres) /\ name g <> "Dance" /\ (0 <= score g)%Q /\
     forall x, In x (concat genres) -> name x <> "Dance" -> (score x <= score g)%Q).
Proof.
  assert (Hinit : sel_inv (None, 0%Q, 0) []) by (left; repeat split; intros x []).
  pose proof (selection_fold_inv genres _ [] Hinit) as H. clear Hinit.
  simpl app in H.
  destruct (fold_left _ genres _) as [[b bs] bd].
  destruct H as [[-> [_ [_ H]]]|[g [-> [Hg [Hn [Hs [H0 H]]]]]]].
  - left. split; [reflexivity|]. intros x Hx. apply H. apply in_concat_rev. exact Hx.
  - right. exists g. split; [reflexivity|]. split; [apply in_concat_rev; exact Hg|].
    split; [exact Hn|]. rewrite Hs. split; [exact H0|].
    intros x Hx. apply H. apply in_concat_rev. exact Hx.
Qed.

(** The names in a tree, in pre-order. *)
Fixpoint tree_names (t : tree) : list string :=
  match t with
  | Node ch =>
      (fix go (l : list (string * tree)) : list string :=
         match l with
         | [] => []
         | (k, sub) :: r => k :: tree_names sub ++ go r
         end) ch
  end.

Abbreviation lvl_names l := (tree_names (Node l)).

Lemma tree_names_cons (k : string) (sub : tree) (r : list (string * tree)) :
  lvl_names ((k, sub) :: r) = k :: tree_names sub ++ lvl_names r.
Proof. reflexivity. Qed.

Lemma flatten_cons (k : string) (sub : tree) (r : list (string * tree)) (d : nat) :
  flatten_tree_for_display (Node ((k, sub) :: r)) d =
    ((display_text k d, k, d)
       :: (if tree_truthy sub then flatten_tree_for_display sub (S d) else []))
    ++ flatten_tree_for_display (Node r) d.
Proof. reflexivity. Qed.

(** Induction on trees, through the lists of children. *)
Fixpoint tree_ind' (P : tree -> Prop)
    (H : forall ch, Forall (fun kv => P (snd kv)) ch -> P (Node ch)) (t : tree) : P t :=
  match t with
  | Node ch =>
      H ch ((fix go (l : list (string * tree)) : Forall (fun kv => P (snd kv)) l :=
               match l with
               | [] => Forall_nil _
               | (k, sub) :: r => @Forall_cons _ (fun kv => P (snd kv)) (k, sub) r
                                    (tree_ind' P H sub) (go r)
               end) ch)
  end.

Lemma flatten_values (t : tree) (d : nat) :
  map (fun it => snd (fst it)) (flatten_tree_for_display t d) = tree_names t.
Proof.
  revert d. induction t as [ch Hch] using tree_ind'. intros d.
  induction ch as [|[k sub] r IHr]; [reflexivity|].
  inversion Hch as [|? ? Hsub Hr]; subst.
  rewrite flatten_cons, tree_names_cons, <- app_comm_cons, map_cons. f_equal.
  rewrite map_app, (IHr Hr). f_equal.
  destruct (tree_truthy sub) eqn:Ht; [exact (Hsub (S d))|].
  destruct sub as [[|x y]]; [reflexivity | discriminate].
Qed.

Lemma descend_cons (n k : string) (f : list (string * tree) -> list (string * tree))
    (ch r : list (string * tree)) :
  descend n f ((k, Node ch) :: r) =
    if String.eqb k n then (k, Node (f ch)) :: r else (k, Node ch) :: descend n f r.
Proof. reflexivity. Qed.

Lemma descend_key (n : string) (f : list (string * tree) -> list (string * tree))
    (lvl : list (string * tree)) : In n (lvl_names (descend n f lvl)).
Proof.
  induction lvl as [|[k [ch]] r IH]; [left; reflexivity|].
  rewrite descend_cons.
  destruct (String.eqb_spec k n) as [ -> | Hne]; [left; reflexivity|].
  rewrite tree_names_cons. right. apply in_or_app. right. exact IH.
Qed.

Lemma descend_keeps (n : string) (f : list (string * tree) -> list (string * tree))
    (lvl : list (string * tree)) :
  (forall ch, incl (lvl_names ch) (lvl_names (f ch))) ->
  incl (lvl_names lvl) (lvl_names (descend n f lvl)).
Proof.
  intros Hf. induction lvl as [|[k [ch]] r IH]; [intros x []|].
  rewrite descend_cons.
  destruct (String.eqb_spec k n) as [ -> | Hne]; rewrite !tree_names_cons; intros x [Hx|Hx];
    try (left; exact Hx); right; apply in_app_or in Hx as [Hx|Hx]; apply in_or_app.
  - left. exact (Hf ch x Hx).
  - right. exact Hx.
  - left. exact Hx.
  - right. exact (IH x Hx).
Qed.

Lemma descend_adds (X : list string) (n : string) (f : list (string * tree) -> list (string * tree))
    (lvl : list (string * tree)) :
  (forall ch, incl X (lvl_names (f ch))) -> incl X (lvl_names (descend n f lvl)).
Proof.
  intros Hf. induction lvl as [|[k [ch]] r IH].
  - intros x Hx. simpl descend. rewrite tree_names_cons. right. apply in_or_app. left. exact (Hf [] x Hx).
  - rewrite descend_cons.
    destruct (String.eqb_spec k n) as [ -> | Hne]; rewrite tree_names_cons; intros x Hx;
      right; apply in_or_app; [left; exact (Hf ch x Hx) | right; exact (IH x Hx)].
Qed.

Lemma insert_path_keeps (path : list GenreTag) (lvl : list (string * tree)) :
  incl (lvl_names lvl) (lvl_names (insert_path path lvl)).
Proof.
  revert lvl. induction path as [|g gs IH]; intros lvl; simpl; [apply incl_refl|].
  apply descend_keeps. exact IH.
Qed.

Lemma insert_path_adds (path : list GenreTag) (lvl : list (string * tree)) :
  incl (map name path) (lvl_names (insert_path path lvl)).
Proof.
  revert lvl. induction path as [|g gs IH]; intros lvl; simpl; [intros x []|].
  intros x [<-|Hx]; [apply descend_key|].
  exact (descend_adds (map name gs) (name g) (insert_path gs) lvl IH x Hx).
Qed.

Lemma build_from_keeps (h : Store) (ls : list nat) (t : list (string * tree)) :
  incl (lvl_names t) (lvl_names (fst (build_from h ls t))).
Proof.
  revert h t. induction ls as [|l r IH]; intros h t; simpl; [apply incl_refl|].
  eapply incl_tran; [apply insert_path_keeps | apply IH].
Qed.

Lemma build_from_adds (h : Store) (ls : list nat) (t : list (string * tree)) (l : nat) :
  In l ls -> incl (map name (h l)) (lvl_names (fst (build_from h ls t))).
Proof.
  revert h t. induction ls as [|l0 r IH]; intros h t Hl; simpl; [destruct Hl|].
  destruct (Nat.eqb_spec l0 l) as [ -> | Hne].
  - eapply incl_tran; [|apply build_from_keeps].
    unfold store_upd. rewrite Nat.eqb_refl.
    intros x Hx. apply (insert_path_adds (rev (h l)) t). rewrite map_rev. apply in_rev.
    rewrite rev_involutive. exact Hx.
  - destruct Hl as [Hl|Hl]; [congruence|].
    replace (h l) with (store_upd h l0 (rev (h l0)) l)
      by (unfold store_upd; destruct (Nat.eqb_spec l0 l); [congruence | reflexivity]).
    apply IH. exact Hl.
Qed.

Lemma select_index_miss (items : list (string * string * nat)) (g : GenreTag) (idx : nat) (cur : option nat) :
  ~ In (name g) (map (fun it => snd (fst it)) items) ->
  select_index items (Some g) idx cur = cur.
Proof.
  revert idx cur. induction items as [|[[d v] dep] r IH]; intros idx cur Hn; simpl; [reflexivity|].
  destruct (String.eqb_spec (name g) v) as [Heq|Hne].
  - exfalso. apply Hn. left. symmetry. exact Heq.
  - apply IH. intros H. apply Hn. right. exact H.
Qed.

Lemma select_index_hit (items : list (string * string * nat)) (g : GenreTag) (idx : nat) (cur : option nat) :
  In (name g) (map (fun it => snd (fst it)) items) ->
  exists i d dep, select_index items (Some g) idx cur = Some (idx + i) /\
                  nth_error items i = Some (d, name g, dep).
Proof.
  revert idx cur. induction items as [|[[d v] dep] r IH]; intros idx cur Hin; simpl; [destruct Hin|].
  destruct (in_dec string_dec (name g) (map (fun it => snd (fst it)) r)) as [Hr|Hr].
  - destruct (IH (S idx) (if String.eqb (name g) v then Some idx else cur) Hr)
      as [i [d' [dep' [Hs Hn]]]].
    exists (S i), d', dep'. rewrite Hs. split; [f_equal; lia | exact Hn].
  - destruct Hin as [Heq|Hin]; [|contradiction]. simpl in Heq. subst v.
    rewrite String.eqb_refl, select_index_miss by exact Hr.
    exists 0, d, dep. split; [f_equal; lia | reflexivity].
Qed.

End SelectExtra.

(** [_get_initial_genres_selection] never proposes "Dance"; it proposes
    nothing exactly when every other tag has a negative score, and
    otherwise a tag of the search results with the highest score among
    them (which is not negative). *)
Theorem initial_selection_best (genres : list GenrePath) :
  (Tree.get_initial_genres_selection genres = None <->
     forall x, In x (concat genres) -> name x <> "Dance" -> (score x < 0)%Q) /\
  (forall g, Tree.get_initial_genres_selection genres = Some g ->
     In g (concat genres) /\ name g <> "Dance" /\ (0 <= score g)%Q /\
     forall x, In x (concat genres) -> name x <> "Dance" -> (score x <= score g)%Q).
Proof.
  pose proof (SelectExtra.selection_inv genres) as Hinv.
  unfold Tree.get_initial_genres_selection.
  destruct (fold_left _ genres _) as [[b bs] bd]. simpl.
  destruct Hinv as [[-> H]|[g [-> [Hg [Hn [H0 H]]]]]].
  - split; [split; [intros _; exact H | reflexivity]|]. intros g' Hg'. discriminate.
  - split.
    + split; [discriminate|]. intros Hall. exfalso. specialize (Hall g Hg Hn). lra.
    + intros g' Hg'. inversion Hg'; subst g'. tauto.
Qed.

(** When [on_genre_found] has an initial selection, the row's drop-down
    is enabled and its current item carries the selected genre's name:
    the tree built from the same (then reversed) lists holds every name,
    and [flatten_tree_for_display] lists every node. *)
Theorem on_genre_found_selects (h : Tree.Store) (genres : list nat) (cur : string) (g : GenreTag) :
  Tree.get_initial_genres_selection (map h genres) = Some g ->
  Tree.combo_enabled (fst (Tree.on_genre_found h genres cur)) = true /\
  exists i d, Tree.combo_current (fst (Tree.on_genre_found h genres cur)) = Some i /\
    nth_error (Tree.combo_items (fst (Tree.on_genre_found h genres cur))) i = Some (d, Some (name g)).
Proof.
  intros Hs.
  assert (Hg : In g (concat (map h genres))).
  { pose proof (SelectExtra.selection_inv (map h genres)) as Hinv.
    unfold Tree.get_initial_genres_selection in Hs.
    destruct (fold_left _ _ _) as [[b bs] bd]. simpl in Hs. subst b.
    destruct Hinv as [[Hb _]|[g' [Hb [Hg _]]]]; [discriminate|].
    inversion Hb; subst g'. exact Hg. }
  unfold Tree.on_genre_found. rewrite Hs. unfold Tree.update_genre_options_for_row.
  apply in_concat in Hg as [p [Hp Hgp]]. apply in_map_iff in Hp as [l [<- Hl]].
  destruct genres as [|l0 rest]; [destruct Hl|].
  destruct (Tree.build_genre_tree h (l0 :: rest)) as [t h'] eqn:Hb.
  assert (Hn : In (name g) (SelectExtra.tree_names (Tree.Node t))).
  { replace t with (fst (Tree.build_genre_tree h (l0 :: rest))) by (rewrite Hb; reflexivity).
    unfold Tree.build_genre_tree.
    apply (SelectExtra.build_from_adds h (l0 :: rest) [] l Hl). apply in_map. exact Hgp. }
  destruct (SelectExtra.select_index_hit (Tree.flatten_tree_for_display (Tree.Node t) 0) g 0 None)
    as [i [d [dep [Hsel Hnth]]]].
  { rewrite SelectExtra.flatten_values. exact Hn. }
  split; [reflexivity|]. exists i, d. cbn [fst Tree.combo_current Tree.combo_items].
  rewrite Hsel. split; [reflexivity|].
  rewrite nth_error_app1.
  - rewrite nth_error_map, Hnth. reflexivity.
  - rewrite length_map. apply nth_error_Some. congruence.
Qed.

Definition house_store : Tree.Store :=
  fun _ => [mkGenreTag "Electronic" 1; mkGenreTag "House" 2].

Lemma on_genre_found_selects_witness :
  Tree.combo_enabled (fst (Tree.on_genre_found house_store [0] "")) = true /\
  exists i d, Tree.combo_current (fst (Tree.on_genre_found house_store [0] "")) = Some i /\
    nth_error (Tree.combo_items (fst (Tree.on_genre_found house_store [0] ""))) i =
      Some (d, Some (name (mkGenreTag "House" 2))).
Proof. apply on_genre_found_selects. vm_compute. reflexivity. Defined.

(** ** The batch runner *)
Module RunnerExtra.
Import Runner.

Section Batch.
Variables (St : Type)
  (search_genre : St -> string -> string -> string -> result (option (list GenrePath) * St))
  (strip : string -> string) (check_audio_files : bool)
  (read_audio : string -> option Audio.AudioTags) (cancelled : nat -> bool).

Abbreviation do_search := (do_search_for_simfile St search_genre strip check_audio_files read_audio).
Abbreviation run_from := (run_from St search_genre strip check_audio_files read_audio cancelled).

Lemma do_search_nonempty (st st' : St) (sf : SimfileMetadata) (l : list GenrePath) :
  do_search st sf = Ok (Some l, st') -> l <> [].
Proof.
  unfold do_search_for_simfile.
  destruct (search_genre st _ _ _) as [[n st1]|e]; simpl; [|discriminate].
  destruct (_ || _);
    [destruct (search_genre st1 _ _ _) as [[tr st2]|e]; simpl; [|discriminate]|]; simpl;
    (destruct (Audio.audio_branch _ _ _ _ _) as [[|x xs]|e]; simpl; [discriminate | | discriminate]);
    intros H; inversion H; discriminate.
Qed.

Lemma do_search_ok (st : St) (sf : SimfileMetadata) :
  check_audio_files = false ->
  (forall st a t s, exists v, search_genre st a t s = Ok v) ->
  exists v, do_search st sf = Ok v.
Proof.
  intros Hc Hs. unfold do_search_for_simfile.
  destruct (Hs st (sf_artist sf) (strip (sf_title sf)) (strip (sf_subtitle sf))) as [[n st1] H1].
  rewrite H1. simpl.
  destruct (_ || _).
  - destruct (Hs st1 (strip (str_or (sf_artisttranslit sf) (sf_artist sf)))
                  (strip (str_or (sf_titletranslit sf) (sf_title sf)))
                  (strip (str_or (sf_subtitletranslit sf) (sf_subtitle sf)))) as [[tr st2] H2].
    rewrite H2. simpl. unfold Audio.audio_branch. rewrite Hc. simpl. eexists. reflexivity.
  - simpl. unfold Audio.audio_branch. rewrite Hc. simpl. eexists. reflexivity.
Qed.

Definition result_event (i : nat) (ev : event) : Prop :=
  (exists gs, gs <> [] /\ ev = GenresFound i gs) \/ ev = NoGenreFound i.

Lemma run_from_shape (sfs : list SimfileMetadata) (idx total : nat) (st : St) :
  (forall st sf, exists v, do_search st sf = Ok v) ->
  exists k evs, k <= length sfs /\
    (forall i, i < k -> cancelled (idx + i) = false) /\
    (k < length sfs -> cancelled (idx + k) = true) /\
    run_from idx total sfs st = (evs ++ [SearchComplete], None) /\
    length evs = 2 * k /\
    (forall i sf, i < k -> nth_error sfs i = Some sf ->
       nth_error evs (2 * i) = Some (ProgressUpdate (S (idx + i)) total (sf_title sf)) /\
       exists ev, nth_error evs (S (2 * i)) = Some ev /\ result_event (idx + i) ev).
Proof.
  intros Hok. revert idx st. induction sfs as [|sf r IH]; intros idx st.
  - exists 0, []. simpl. repeat split; intros; lia.
  - cbn [Runner.run_from length]. destruct (cancelled idx) eqn:Hc.
    + exists 0, []. split; [simpl; lia|]. split; [intros; lia|].
      split; [intros _; rewrite Nat.add_0_r; exact Hc|].
      split; [reflexivity|]. split; [reflexivity|]. intros; lia.
    + destruct (Hok st sf) as [[res st'] Hs]. rewrite Hs.
      destruct (IH (S idx) st') as [k [evs [Hk [Hpre [Hstop [Hrun [Hlen Hnth]]]]]]].
      rewrite Hrun.
      set (ev := match res with Some l => GenresFound idx l | None => NoGenreFound idx end).
      exists (S k), (ProgressUpdate (S idx) total (sf_title sf) :: ev :: evs).
      split; [simpl; lia|]. split; [|split; [|split; [|split]]].
      * intros [|i] Hi; [rewrite Nat.add_0_r; exact Hc|].
        replace (idx + S i) with (S idx + i) by lia. apply Hpre. lia.
      * intros Hlt. replace (idx + S k) with (S idx + k) by lia. apply Hstop. simpl in Hlt. lia.
      * reflexivity.
      * simpl. rewrite Hlen. lia.
      * intros [|i] sf' Hi Hn.
        -- simpl in Hn. inversion Hn; subst sf'. replace (idx + 0) with idx by lia.
           split; [reflexivity|].
           exists ev. split; [reflexivity|]. unfold result_event, ev.
           destruct res as [l|]; [left; exists l; split; [exact (do_search_nonempty _ _ _ _ Hs) | reflexivity]
                                 | right; reflexivity].
        -- simpl in Hn. destruct (Hnth i sf' ltac:(lia) Hn) as [H1 [ev' [H2 H3]]].
           replace (2 * S i) with (S (S (2 * i))) by lia.
           replace (idx + S i) with (S idx + i) by lia.
           split; [exact H1|]. exists ev'. split; [exact H2 | exact H3].
Qed.

Lemma run_from_complete (sfs : list SimfileMetadata) (idx total : nat) (st : St) :
  (snd (run_from idx total sfs st) = None <-> In SearchComplete (fst (run_from idx total sfs st))) /\
  (snd (run_from idx total sfs st) = None ->
     exists evs, fst (run_from idx total sfs st) = evs ++ [SearchComplete] /\ ~ In SearchComplete evs).
Proof.
  revert idx st. induction sfs as [|sf r IH]; intros idx st; simpl.
  - split; [tauto|]. intros _. exists []. split; [reflexivity | intros []].
  - destruct (cancelled idx).
    + simpl. split; [tauto|]. intros _. exists []. split; [reflexivity | intros []].
    + destruct (do_search st sf) as [[res st']|e].
      * destruct (IH (S idx) st') as [H1 H2].
        destruct (run_from (S idx) total r st') as [evs e] eqn:Hr. simpl in H1, H2 |- *.
        split.
        -- rewrite H1. split; [intros H; right; right; exact H|].
           intros [H|[H|H]]; [discriminate | destruct res; discriminate | exact H].
        -- intros He. destruct (H2 He) as [evs' [-> Hn]].
           eexists (_ :: _ :: evs'). split; [reflexivity|].
           intros [H|[H|H]]; [discriminate | destruct res; discriminate | exact (Hn H)].
      * simpl. split; [split; [discriminate | intros [H|[]]; discriminate]|]. discriminate.
Qed.

End Batch.
End RunnerExtra.

(** [GenreSearchThread.run] with audio checking off (as the dialog
    creates it) and a search that does not raise: the songs before the
    first iteration that sees the cancel flag are searched in order; each
    gets its progress signal, then one result signal ([genres_found]
    with a non-empty list, or [no_genre_found]); [search_complete] comes
    last, once. *)
Theorem run_trace_under_cancel (St : Type)
    (search_genre : St -> string -> string -> string -> result (option (list GenrePath) * St))
    (strip : string -> string) (read_audio : string -> option Audio.AudioTags)
    (cancelled : nat -> bool) (sfs : list Runner.SimfileMetadata) (st : St) :
  (forall st a t s, exists v, search_genre st a t s = Ok v) ->
  exists k evs, k <= length sfs /\
    (forall i, i < k -> cancelled i = false) /\
    (k < length sfs -> cancelled k = true) /\
    Runner.run St search_genre strip false read_audio cancelled sfs st =
      (evs ++ [Runner.SearchComplete], None) /\
    length evs = 2 * k /\
    (forall i sf, i < k -> nth_error sfs i = Some sf ->
       nth_error evs (2 * i) = Some (Runner.ProgressUpdate (S i) (length sfs) (Runner.sf_title sf)) /\
       exists ev, nth_error evs (S (2 * i)) = Some ev /\ RunnerExtra.result_event i ev).
Proof.
  intros Hs.
  destruct (RunnerExtra.run_from_shape St search_genre strip false read_audio cancelled sfs 0 (length sfs) st
              (fun st sf => RunnerExtra.do_search_ok St search_genre strip false read_audio st sf eq_refl Hs))
    as [k [evs [Hk [Hpre [Hstop [Hrun [Hlen Hnth]]]]]]].
  exists k, evs. split; [exact Hk|]. split; [exact Hpre|]. split; [exact Hstop|].
  split; [exact Hrun|]. split; [exact Hlen|]. exact Hnth.
Qed.

Definition two_songs : list Runner.SimfileMetadata :=
  [Runner.mkSimfileMetadata "One" "" "A" "" "" "" None;
   Runner.mkSimfileMetadata "Two" "" "B" "" "" "" None].

Lemma run_trace_under_cancel_witness :
  exists k evs, k <= length two_songs /\
    (forall i, i < k -> Nat.leb 1 i = false) /\
    (k < length two_songs -> Nat.leb 1 k = true) /\
    Runner.run unit (fun u _ _ _ => Ok (None, u)) (fun x => x) false (fun _ => None)
      (fun i => Nat.leb 1 i) two_songs tt = (evs ++ [Runner.SearchComplete], None) /\
    length evs = 2 * k /\
    (forall i sf, i < k -> nth_error two_songs i = Some sf ->
       nth_error evs (2 * i) = Some (Runner.ProgressUpdate (S i) (length two_songs) (Runner.sf_title sf)) /\
       exists ev, nth_error evs (S (2 * i)) = Some ev /\ RunnerExtra.result_event i ev).
Proof.
  apply (run_trace_under_cancel unit (fun u _ _ _ => Ok (None, u))).
  intros u a t s. exists (None, u). reflexivity.
Defined.

(** [run] emits [search_complete] exactly when no per-song search
    raised, and then as its last signal and only there: an exception in
    [_do_search_for_simfile] (such as the audio branch's
    [AttributeError]) ends the thread without it. *)
Theorem run_complete_iff_no_exception (St : Type)
    (search_genre : St -> string -> string -> string -> result (option (list GenrePath) * St))
    (strip : string -> string) (check_audio_files : bool)
    (read_audio : string -> option Audio.AudioTags) (cancelled : nat -> bool)
    (sfs : list Runner.SimfileMetadata) (st : St) :
  let r := Runner.run St search_genre strip check_audio_files read_audio cancelled sfs st in
  (snd r = None <-> In Runner.SearchComplete (fst r)) /\
  (snd r = None -> exists evs, fst r = evs ++ [Runner.SearchComplete] /\
                               ~ In Runner.SearchComplete evs).
Proof. apply RunnerExtra.run_from_complete. Qed.

Module TreeTopExtra.
Import Tree.

Lemma descend_keys (n : string) (f : list (string * tree) -> list (string * tree))
    (lvl : list (string * tree)) (k : string) :
  In k (map fst (descend n f lvl)) <-> In k (map fst lvl) \/ k = n.
Proof.
  induction lvl as [|[k0 [ch]] r IH].
  - simpl. intuition congruence.
  - rewrite SelectExtra.descend_cons. destruct (String.eqb_spec k0 n) as [ -> | Hne]; simpl.
    + intuition congruence.
    + rewrite IH. tauto.
Qed.

Lemma descend_nodup (n : string) (f : list (string * tree) -> list (string * tree))
    (lvl : list (string * tree)) :
  NoDup (map fst lvl) -> NoDup (map fst (descend n f lvl)).
Proof.
  induction lvl as [|[k0 [ch]] r IH]; intros H.
  - simpl. repeat constructor. intros [].
  - rewrite SelectExtra.descend_cons. inversion H as [|? ? Hk Hr]; subst.
    destruct (String.eqb_spec k0 n) as [ -> | Hne]; simpl; constructor; try assumption.
    + rewrite descend_keys. intros [Hin|<-]; [exact (Hk Hin) | congruence].
    + exact (IH Hr).
Qed.

Lemma insert_path_keys (path : list GenreTag) (lvl : list (string * tree)) (k : string) :
  In k (map fst (insert_path path lvl)) <->
  In k (map fst lvl) \/ exists g gs, path = g :: gs /\ name g = k.
Proof.
  destruct path as [|g gs]; simpl.
  - split; [tauto|]. intros [H|[g [gs [H _]]]]; [exact H | discriminate].
  - rewrite descend_keys. split.
    + intros [H| ->]; [left; exact H | right; exists g, gs; split; reflexivity].
    + intros [H|[g' [gs' [H <-]]]]; [left; exact H | right; inversion H; reflexivity].
Qed.

Lemma insert_path_nodup (path : list GenreTag) (lvl : list (string * tree)) :
  NoDup (map fst lvl) -> NoDup (map fst (insert_path path lvl)).
Proof. destruct path as [|g gs]; simpl; [tauto | apply descend_nodup]. Qed.

Lemma build_from_keys (h : Store) (ls : list nat) (t : list (string * tree)) (k : string) :
  NoDup ls ->
  (In k (map fst (fst (build_from h ls t))) <->
   In k (map fst t) \/ exists l g gs, In l ls /\ rev (h l) = g :: gs /\ name g = k) /\
  (NoDup (map fst t) -> NoDup (map fst (fst (build_from h ls t)))).
Proof.
  revert h t. induction ls as [|l0 r IH]; intros h t Hnd; cbn [build_from].
  - split; [|tauto]. split; [tauto|]. intros [H|[l [g [gs [[] _]]]]]. exact H.
  - inversion Hnd as [|? ? Hl0 Hr]; subst.
    destruct (IH (store_upd h l0 (rev (h l0))) (insert_path (store_upd h l0 (rev (h l0)) l0) t) Hr)
      as [Hk Hn].
    assert (Hs : store_upd h l0 (rev (h l0)) l0 = rev (h l0))
      by (unfold store_upd; rewrite Nat.eqb_refl; reflexivity).
    rewrite Hs in Hk, Hn. cbv zeta. rewrite Hs.
    split.
    + rewrite Hk, insert_path_keys. split.
      * intros [[H|[g [gs [H1 H2]]]]|[l [g [gs [Hl [H1 H2]]]]]].
        -- left. exact H.
        -- right. exists l0, g, gs. split; [left; reflexivity | split; assumption].
        -- right. exists l, g, gs. split; [right; exact Hl|]. split; [|exact H2].
           unfold store_upd in H1. destruct (Nat.eqb_spec l0 l); [subst; contradiction | exact H1].
      * intros [H|[l [g [gs [[<-|Hl] [H1 H2]]]]]].
        -- left. left. exact H.
        -- left. right. exists g, gs. split; assumption.
        -- right. exists l, g, gs. split; [exact Hl|]. split; [|exact H2].
           unfold store_upd. destruct (Nat.eqb_spec l0 l); [subst; contradiction | exact H1].
    + intros Ht. apply Hn. apply insert_path_nodup. exact Ht.
Qed.

End TreeTopExtra.

(** The tree [build_genre_tree] makes is keyed leaf first: for distinct
    path objects, its top level, the entries of the drop-down at depth
    0, holds each last tag of a non-empty path, once, and nothing else. *)
Theorem build_genre_tree_top_level (h : Tree.Store) (ls : list nat) :
  NoDup ls ->
  NoDup (map fst (fst (Tree.build_genre_tree h ls))) /\
  (forall k, In k (map fst (fst (Tree.build_genre_tree h ls))) <->
     exists l g gs, In l ls /\ rev (h l) = g :: gs /\ name g = k).
Proof.
  intros Hnd. unfold Tree.build_genre_tree. split.
  - apply (proj2 (TreeTopExtra.build_from_keys h ls [] "" Hnd)). constructor.
  - intros k. rewrite (proj1 (TreeTopExtra.build_from_keys h ls [] k Hnd)). simpl. tauto.
Qed.

Lemma build_genre_tree_top_level_witness :
  NoDup (map fst (fst (Tree.build_genre_tree house_store [0]))) /\
  (forall k, In k (map fst (fst (Tree.build_genre_tree house_store [0]))) <->
     exists l g gs, In l [0] /\ rev (house_store l) = g :: gs /\ name g = k).
Proof.
  apply build_genre_tree_top_level. repeat constructor. intros [].
Defined.

